(** * news_sentiment_trader: the CSV transformation pipeline of [main.py]

    A shallow embedding of [src/news_sentiment_trader/main.py]:
    - the pure value-level reading of [limit_rows] and [add_sentiment_columns]
      (Python lists as [list], [int] as [Z], [str] as [string]);
    - an object-level reading of the same two functions over a store of
      mutable list objects, to talk about aliasing and mutation;
    - the CSV dialect used by [csv.writer] / [csv.reader];
    - the orchestrator [main] over an explicit world (stdin, stdout, network,
      file system). *)

From Stdlib Require Import Ascii String.
From stdpp Require Import base numbers list strings pretty gmap.

Local Open Scope Z_scope.

(** ** Data model *)

(** A row is a Python [List[str]], a table a [List[List[str]]]; the first row
    of a non-empty table is its header. *)
Abbreviation Row := (list string).
Abbreviation Table := (list (list string)).

Definition header_of (rows : Table) : option Row := head rows.
Definition data_of (rows : Table) : list Row := tail rows.

(** ** The Python built-ins the two transformations use *)

Module Py.

(** [range(lo, hi)] *)
Definition range (lo hi : Z) : list Z := seqZ lo (hi - lo).

(** The stop index of [l[:stop]] after CPython's index adjustment for a
    slice of step 1: a negative stop is counted from the end and clipped at
    0, any other stop is clipped at the length. *)
Definition adjust_stop (len stop : Z) : Z :=
  if decide (stop < 0) then
    let stop' := stop + len in
    if decide (stop' < 0) then 0 else stop'
  else if decide (len ≤ stop) then len else stop.

(** [l[:n]] *)
Definition slice_upto {A} (l : list A) (n : Z) : list A :=
  take (Z.to_nat (adjust_stop (Z.of_nat (length l)) n)) l.

(** [str(i)] / [f"{i}"] for an [int]: decimal digits, [-] for negatives. *)
Definition str (i : Z) : string := pretty i.

End Py.

(** ** Row Limiter: [limit_rows] *)

Definition limit_rows (rows : Table) (n : Z) : Table :=
  match rows with
  | [] => rows
  | header :: data =>
      let limited := Py.slice_upto data n in
      [header] ++ limited
  end.

(** ** Column Widener: [add_sentiment_columns]

    The two [for] loops with [append] are left folds that extend the list at
    its end, exactly as the source builds [new_header], [new_row] and
    [augmented]. *)

Definition extend_header (new_header : Row) (i : Z) : Row :=
  (new_header ++ ["sentiment_" +:+ Py.str i])
    ++ ["sentiment_" +:+ Py.str i +:+ "_reason"].

Definition extend_row (new_row : Row) (_ : Z) : Row :=
  (new_row ++ [""]) ++ [""].

Definition add_sentiment_columns (rows : Table) (num_scores : Z) : Table :=
  match rows with
  | [] => rows
  | header :: data =>
      let new_header := foldl extend_header header (Py.range 1 (num_scores + 1)) in
      let augmented := [new_header] in
      foldl (λ augmented row,
               let new_row := foldl extend_row row (Py.range 0 num_scores) in
               augmented ++ [new_row])
            augmented data
  end.

(** ** The same two functions over mutable list objects

    Python lists are objects: a table is a list of references to row lists,
    [copy] and slicing allocate, [append] updates in place.  This reading
    keeps the allocation and the aliasing of the source, so that "the input
    is not mutated" can be stated. *)

Module Store.

Abbreviation loc := positive.

Inductive obj :=
| StrList (cells : list string)   (* a row: a list of (immutable) strings *)
| RowList (rows : list loc).      (* a table: a list of references to rows *)

Abbreviation store := (gmap loc obj).

(** Computations that read and update the store; [None] is a run-time type
    error or a dangling reference. *)
Definition M (A : Type) : Type := store → option (A * store).

#[global] Instance M_ret : MRet M := λ A a σ, Some (a, σ).
#[global] Instance M_bind : MBind M := λ A B f m σ,
  match m σ with
  | Some (a, σ') => f a σ'
  | None => None
  end.

(** Allocation of a new list object. *)
Definition new (o : obj) : M loc := λ σ,
  let l := fresh (dom σ) in Some (l, <[l := o]> σ).

Definition get_cells (l : loc) : M (list string) := λ σ,
  match σ !! l with
  | Some (StrList cells) => Some (cells, σ)
  | _ => None
  end.

Definition get_rows (l : loc) : M (list loc) := λ σ,
  match σ !! l with
  | Some (RowList rows) => Some (rows, σ)
  | _ => None
  end.

(** [l.append(x)]: in-place update of the object at [l]. *)
Definition append_cell (l : loc) (x : string) : M unit := λ σ,
  match σ !! l with
  | Some (StrList cells) => Some ((), <[l := StrList (cells ++ [x])]> σ)
  | _ => None
  end.

Definition append_row (l : loc) (r : loc) : M unit := λ σ,
  match σ !! l with
  | Some (RowList rows) => Some ((), <[l := RowList (rows ++ [r])]> σ)
  | _ => None
  end.

(** [row.copy()] *)
Definition copy (l : loc) : M loc :=
  cells ← get_cells l; new (StrList cells).

(** [for x in xs: body(x)] *)
Fixpoint for_each {A} (xs : list A) (body : A → M unit) : M unit :=
  match xs with
  | [] => mret ()
  | x :: xs' => _ ← body x; for_each xs' body
  end.

Definition limit_rows (rows : loc) (n : Z) : M loc :=
  items ← get_rows rows;
  match items with
  | [] => mret rows
  | header :: rest =>
      data ← new (RowList rest);                             (* rows[1:] *)
      data_items ← get_rows data;
      limited ← new (RowList (Py.slice_upto data_items n));  (* data[:n] *)
      single ← new (RowList [header]);                       (* [header] *)
      single_items ← get_rows single;
      limited_items ← get_rows limited;
      new (RowList (single_items ++ limited_items))    (* [header] + limited *)
  end.

Definition add_sentiment_columns (rows : loc) (num_scores : Z) : M loc :=
  items ← get_rows rows;
  match items with
  | [] => mret rows
  | header :: rest =>
      new_header ← copy header;
      _ ← for_each (Py.range 1 (num_scores + 1)) (λ i,
            _ ← append_cell new_header ("sentiment_" +:+ Py.str i);
            append_cell new_header ("sentiment_" +:+ Py.str i +:+ "_reason"));
      augmented ← new (RowList [new_header]);
      tail_rows ← new (RowList rest);                        (* rows[1:] *)
      tail_items ← get_rows tail_rows;
      _ ← for_each tail_items (λ row,
            new_row ← copy row;
            _ ← for_each (Py.range 0 num_scores) (λ _,
                  _ ← append_cell new_row "";
                  append_cell new_row "");
            append_row augmented new_row);
      mret augmented
  end.

(** What a reference denotes in a store. *)
Definition read_row (σ : store) (l : loc) : option Row :=
  match σ !! l with
  | Some (StrList cells) => Some cells
  | _ => None
  end.

Definition read_table (σ : store) (t : loc) : option Table :=
  match σ !! t with
  | Some (RowList rows) => mapM (read_row σ) rows
  | _ => None
  end.

End Store.

(** ** The CSV dialect of [csv.writer] and [csv.reader]

    [write_csv] and [fetch_finviz_csv] call Python's [csv] module with its
    default dialect ([excel]): comma delimiter, double-quote quote character,
    quotes escaped by doubling, minimal quoting, no escape character, line
    terminator CR LF, not strict.  The writer and the reader below follow the
    module's record builder and its character-driven parser for that dialect;
    the three parser states that only an escape character can reach are left
    out.  Text is a sequence of characters. *)

Module Csv.

Abbreviation text := (list ascii).

Definition delimiter : ascii := ","%char.
Definition quotechar : ascii := "034"%char.
Definition CR : ascii := "013"%char.
Definition LF : ascii := "010"%char.
Definition lineterminator : text := [CR; LF].

(** [csv.field_size_limit()]: the largest field the reader accepts.  The
    program never changes the default. *)
Definition field_limit : Z := 131072.

(** *** Writer *)

Record writer := Writer { rec : text; num_fields : nat }.

Definition join_reset : writer := Writer [] 0.

(** The characters that force a field into quotes under minimal quoting. *)
Definition special (c : ascii) : bool :=
  bool_decide (c = delimiter ∨ c = quotechar ∨ c ∈ lineterminator).

(** A quote character inside a field is written twice. *)
Definition copy_char (c : ascii) : text :=
  if decide (c = quotechar) then [quotechar; c] else [c].

(** [join_append]: add one field to the record; [None] is the null field
    used for a record that would otherwise be empty. *)
Definition join_append (w : writer) (field : option string) (quoted : bool) : writer :=
  let data := from_option list_ascii_of_string [] field in
  let quoted := quoted || existsb special data in
  let sep := if decide (0 < num_fields w)%nat then [delimiter] else [] in
  let body := data ≫= copy_char in
  Writer (rec w ++ sep ++ (if quoted then [quotechar] ++ body ++ [quotechar] else body))
         (S (num_fields w)).

(** [writer.writerow(row)]: the text handed to the file's [write]. *)
Definition writerow (row : Row) : text :=
  let w := foldl (λ w field, join_append w (Some field) false) join_reset row in
  let w :=
    if decide ((0 < num_fields w)%nat ∧ rec w = [])
    then join_append (Writer (rec w) (pred (num_fields w))) None true
    else w in
  rec w ++ lineterminator.

(** The text [write_csv] leaves in the file: the rows in order. *)
Definition write_rows (rows : Table) : text :=
  foldl (λ written row, written ++ writerow row) [] rows.

(** *** Reader *)

Inductive error :=
| FieldLargerThanLimit
| NewlineInUnquotedField.

Inductive result (A : Type) :=
| Ok (a : A)
| Err (e : error).
Arguments Ok {A} a.
Arguments Err {A} e.

Inductive state :=
| START_RECORD
| START_FIELD
| IN_FIELD
| IN_QUOTED_FIELD
| QUOTE_IN_QUOTED_FIELD
| EAT_CRNL.

#[global] Instance state_eq_dec : EqDecision state.
Proof. solve_decision. Defined.

Record reader := Reader { st : state; field : text; fields : list string }.

(** What the parser is fed: a character of the line, or the end of the line. *)
Inductive input :=
| Char (c : ascii)
| EOL.

Definition parse_reset : reader := Reader START_RECORD [] [].

Definition set_state (s : state) (r : reader) : reader :=
  Reader s (field r) (fields r).

Definition parse_save_field (r : reader) : reader :=
  Reader (st r) [] (fields r ++ [string_of_list_ascii (field r)]).

Definition parse_add_char (r : reader) (c : ascii) : result reader :=
  if decide (field_limit ≤ Z.of_nat (length (field r)))
  then Err FieldLargerThanLimit
  else Ok (Reader (st r) (field r ++ [c]) (fields r)).

Definition is_newline (c : ascii) : bool := bool_decide (c = LF ∨ c = CR).

(** The end of a field at a line break or at the end of the line. *)
Definition end_of_record (r : reader) (c : input) : result reader :=
  Ok (set_state (match c with EOL => START_RECORD | Char _ => EAT_CRNL end)
                (parse_save_field r)).

Definition process_start_field (r : reader) (c : input) : result reader :=
  match c with
  | EOL => end_of_record r c
  | Char x =>
      if is_newline x then end_of_record r c
      else if decide (x = quotechar) then Ok (set_state IN_QUOTED_FIELD r)
      else if decide (x = delimiter) then Ok (parse_save_field r)
      else match parse_add_char r x with
           | Ok r' => Ok (set_state IN_FIELD r')
           | Err e => Err e
           end
  end.

Definition parse_process_char (r : reader) (c : input) : result reader :=
  match st r with
  | START_RECORD =>
      match c with
      | EOL => Ok r
      | Char x =>
          if is_newline x then Ok (set_state EAT_CRNL r)
          else process_start_field (set_state START_FIELD r) c
      end
  | START_FIELD => process_start_field r c
  | IN_FIELD =>
      match c with
      | EOL => end_of_record r c
      | Char x =>
          if is_newline x then end_of_record r c
          else if decide (x = delimiter)
               then Ok (set_state START_FIELD (parse_save_field r))
          else parse_add_char r x
      end
  | IN_QUOTED_FIELD =>
      match c with
      | EOL => Ok r
      | Char x =>
          if decide (x = quotechar) then Ok (set_state QUOTE_IN_QUOTED_FIELD r)
          else parse_add_char r x
      end
  | QUOTE_IN_QUOTED_FIELD =>
      match c with
      | EOL => end_of_record r c
      | Char x =>
          if decide (x = quotechar) then
            match parse_add_char r x with
            | Ok r' => Ok (set_state IN_QUOTED_FIELD r')
            | Err e => Err e
            end
          else if decide (x = delimiter)
               then Ok (set_state START_FIELD (parse_save_field r))
          else if is_newline x then end_of_record r c
          else match parse_add_char r x with
               | Ok r' => Ok (set_state IN_FIELD r')
               | Err e => Err e
               end
      end
  | EAT_CRNL =>
      match c with
      | EOL => Ok (set_state START_RECORD r)
      | Char x => if is_newline x then Ok r else Err NewlineInUnquotedField
      end
  end.

(** One line of input: its characters, then the end-of-line signal. *)
Fixpoint process_line (r : reader) (line : text) : result reader :=
  match line with
  | [] => parse_process_char r EOL
  | c :: line' =>
      match parse_process_char r (Char c) with
      | Ok r' => process_line r' line'
      | Err e => Err e
      end
  end.

(** Iterating [io.StringIO(text)]: lines end after each LF, the terminator is
    kept, and a last line without one is a line too. *)
Fixpoint lines (t : text) : list text :=
  match t with
  | [] => []
  | c :: t' =>
      if decide (c = LF) then [c] :: lines t'
      else match lines t' with
           | [] => [[c]]
           | l :: ls => (c :: l) :: ls
           end
  end.

(** [[row for row in reader]]: a record is complete when a line leaves the
    parser at the start of a record; otherwise the next line continues it.
    When the input ends inside a record, the pending field is saved and the
    record returned. *)
Fixpoint read_records (r : reader) (ls : list text) : result (list Row) :=
  match ls with
  | [] =>
      if decide (field r ≠ [] ∨ st r = IN_QUOTED_FIELD)
      then Ok [fields (parse_save_field r)]
      else Ok []
  | line :: ls' =>
      match process_line r line with
      | Err e => Err e
      | Ok r' =>
          if decide (st r' = START_RECORD) then
            match read_records parse_reset ls' with
            | Ok rows => Ok (fields r' :: rows)
            | Err e => Err e
            end
          else read_records r' ls'
      end
  end.

(** [[row for row in csv.reader(io.StringIO(t))]] *)
Definition read_text (t : text) : result Table :=
  read_records parse_reset (lines t).

(** A cell with no delimiter, no quote character and no line break. *)
Definition clean_cell (cell : string) : Prop :=
  Forall (λ c, special c = false) (list_ascii_of_string cell).

Definition clean_table (rows : Table) : Prop :=
  Forall (Forall clean_cell) rows.

(** A cell the reader's field limit lets through. *)
Definition short_cell (cell : string) : Prop :=
  Z.of_nat (String.length cell) ≤ field_limit.

Definition short_table (rows : Table) : Prop :=
  Forall (Forall short_cell) rows.

(** The characters of a line, without the end-of-line signal. *)
Fixpoint process_chars (r : reader) (cs : text) : result reader :=
  match cs with
  | [] => Ok r
  | c :: cs' =>
      match parse_process_char r (Char c) with
      | Ok r' => process_chars r' cs'
      | Err e => Err e
      end
  end.

(** The fields of a record after its first one, each behind a delimiter. *)
Definition more_fields (cells : list string) : text :=
  cells ≫= (λ cell, delimiter :: list_ascii_of_string cell).

End Csv.

(** ** The orchestrator: [prompt_if_needed], [fetch_finviz_csv], [write_csv],
    [try_open_file] and [main]

    The process runs in a world: the lines waiting on standard input, what
    was printed, what the network answers, the files written and the viewer
    commands launched.  A computation updates the world and either returns
    or raises. *)

Module Main.

(** The [argparse.Namespace] returned by [parse_args]: [--rows] and
    [--scores] are [None] when the flag is absent; the URL and the output
    path always have a value (flag, environment variable or default). *)
Record Namespace := Args {
  rows : option Z;
  scores : option Z;
  finviz_url : string;
  output : string
}.

Inductive exn :=
| SystemExit (code : Z)
| EOFError
| TypeError
| URLError
| CsvError (e : Csv.error)
| OSError.

Record World := MkWorld {
  stdin : list string;                  (* lines not yet read by [input] *)
  stdout : list string;                 (* what was printed, in order *)
  http : string → option (list ascii);  (* response body of a GET, if any *)
  unwritable : string → bool;           (* paths whose directory cannot be made *)
  files : gmap string Csv.text;         (* text written, by path *)
  platform : string;                    (* [sys.platform] *)
  os_name : string;                     (* [os.name] *)
  spawn_fails : bool;                   (* launching a viewer raises *)
  launched : list (list string)         (* viewer commands started *)
}.

Definition set_stdin (v : list string) (w : World) : World :=
  MkWorld v (stdout w) (http w) (unwritable w) (files w) (platform w)
          (os_name w) (spawn_fails w) (launched w).

Definition set_stdout (v : list string) (w : World) : World :=
  MkWorld (stdin w) v (http w) (unwritable w) (files w) (platform w)
          (os_name w) (spawn_fails w) (launched w).

Definition set_files (v : gmap string Csv.text) (w : World) : World :=
  MkWorld (stdin w) (stdout w) (http w) (unwritable w) v (platform w)
          (os_name w) (spawn_fails w) (launched w).

Definition set_launched (v : list (list string)) (w : World) : World :=
  MkWorld (stdin w) (stdout w) (http w) (unwritable w) (files w) (platform w)
          (os_name w) (spawn_fails w) v.

Definition IO (A : Type) : Type := World → World * (exn + A).

#[global] Instance IO_ret : MRet IO := λ A a w, (w, inr a).
#[global] Instance IO_bind : MBind IO := λ A B f m w,
  match m w with
  | (w', inr a) => f a w'
  | (w', inl e) => (w', inl e)
  end.

Definition raise {A} (e : exn) : IO A := λ w, (w, inl e).

Definition print (s : string) : IO unit := λ w,
  (set_stdout (stdout w ++ [s]) w, inr ()).

(** The status the process ends with: 0 when [main] returns, the code of
    [sys.exit], 1 for any other uncaught exception. *)
Definition exit_status {A} (r : exn + A) : Z :=
  match r with
  | inr _ => 0
  | inl (SystemExit code) => code
  | inl _ => 1
  end.

Section WithPython.

(** [int(s)]: [None] stands for [ValueError]. *)
Variable py_int : string → option Z.
(** [s.strip()] *)
Variable py_strip : string → string.
(** [bytes.decode("utf-8-sig", errors="replace")] *)
Variable decode_utf8_sig : list ascii → Csv.text.

(** The [while True] loop for [args.rows]: each round prints the prompt and
    reads a line; [input] raises [EOFError] when no line is left. *)
Fixpoint ask_rows (pending : list string) (w : World) : World * (exn + Z) :=
  let w := set_stdout (stdout w ++ ["How many headlines should be included? "]) w in
  match pending with
  | [] => (w, inl EOFError)
  | line :: pending' =>
      let w := set_stdin pending' w in
      let rows_str := py_strip line in
      match py_int rows_str with
      | Some v =>
          if decide (v ≤ 0)
          then ask_rows pending'
                 (set_stdout (stdout w ++ ["Please enter a positive integer."]) w)
          else (w, inr v)
      | None =>
          ask_rows pending'
            (set_stdout (stdout w ++ ["Please enter a positive integer."]) w)
      end
  end.

(** The [while True] loop for [args.scores]. *)
Fixpoint ask_scores (pending : list string) (w : World) : World * (exn + Z) :=
  let w := set_stdout (stdout w ++ ["How many different sentiment scores? (1 to 5) "]) w in
  match pending with
  | [] => (w, inl EOFError)
  | line :: pending' =>
      let w := set_stdin pending' w in
      let scores_str := py_strip line in
      match py_int scores_str with
      | Some v =>
          if decide (1 ≤ v ≤ 5)
          then (w, inr v)
          else ask_scores pending'
                 (set_stdout (stdout w ++ ["Please enter an integer from 1 to 5."]) w)
      | None =>
          ask_scores pending'
            (set_stdout (stdout w ++ ["Please enter an integer from 1 to 5."]) w)
      end
  end.

Definition input_rows : IO Z := λ w, ask_rows (stdin w) w.
Definition input_scores : IO Z := λ w, ask_scores (stdin w) w.

Definition prompt_if_needed (args : Namespace) : IO Namespace :=
  args ← (match rows args with
          | None =>
              v ← input_rows;
              mret (Args (Some v) (scores args) (finviz_url args) (output args))
          | Some _ => mret args
          end : IO Namespace);
  (match scores args with
   | None =>
       v ← input_scores;
       mret (Args (rows args) (Some v) (finviz_url args) (output args))
   | Some _ => mret args
   end : IO Namespace).

Definition fetch_finviz_csv (finviz_url : string) : IO Table := λ w,
  match http w finviz_url with
  | None => (w, inl URLError)
  | Some csv_bytes =>
      match Csv.read_text (decode_utf8_sig csv_bytes) with
      | Csv.Ok rows => (w, inr rows)
      | Csv.Err e => (w, inl (CsvError e))
      end
  end.

(** [path.parent.mkdir(parents=True, exist_ok=True)]: raises where the
    directory cannot be made. *)
Definition ensure_parent_dir (path : string) : IO unit := λ w,
  if unwritable w path then (w, inl OSError) else (w, inr ()).

(** The file is opened for writing (truncated) without newline translation,
    so the writer's text reaches it as it is: afterwards it holds the rows
    written in order. *)
Definition write_text (path : string) (t : Csv.text) : IO unit := λ w,
  (set_files (<[path := t]> (files w)) w, inr ()).

Definition write_csv (rows : Table) (output_path : string) : IO unit :=
  _ ← ensure_parent_dir output_path;
  write_text output_path (Csv.write_rows rows).

(** Best effort: every exception is swallowed. *)
Definition try_open_file (output_path : string) : IO unit := λ w,
  let launch (cmd : list string) : World * (exn + unit) :=
    if spawn_fails w then (w, inr ())
    else (set_launched (launched w ++ [cmd]) w, inr ()) in
  if String.prefix "linux" (platform w) then launch ["xdg-open"; output_path]
  else if decide (platform w = "darwin") then launch ["open"; output_path]
  else if decide (os_name w = "nt") then launch ["startfile"; output_path]
  else (w, inr ()).

(** After [prompt_if_needed] both counts are integers. *)
Definition the_int (v : option Z) : IO Z :=
  match v with
  | Some n => mret n
  | None => raise TypeError
  end.

(** [main], from the namespace [parse_args] returned. *)
Definition main (args : Namespace) : IO unit :=
  args ← prompt_if_needed args;
  args_rows ← the_int (rows args);
  args_scores ← the_int (scores args);

  _ ← print "Downloading Finviz news CSV...";
  rows ← fetch_finviz_csv (finviz_url args);
  _ ← (if decide (rows = [])
       then _ ← print "No data returned from Finviz."; raise (SystemExit 1)
       else mret () : IO unit);

  _ ← print ("Trimming to top " +:+ Py.str args_rows +:+ " headline(s)...");
  let rows_limited := limit_rows rows args_rows in

  _ ← print ("Adding " +:+ Py.str args_scores +:+ " sentiment score column pairs...");
  let rows_augmented := add_sentiment_columns rows_limited args_scores in

  _ ← print ("Writing CSV to " +:+ output args +:+ " ...");
  _ ← write_csv rows_augmented (output args);

  _ ← print "Attempting to open the CSV locally (best-effort)...";
  _ ← try_open_file (output args);

  _ ← print "Done.";
  print ("Saved: " +:+ output args).

(** Running the script: the world it leaves and its exit status. *)
Definition run (args : Namespace) (w : World) : World * Z :=
  let '(w', r) := main args w in (w', exit_status r).

End WithPython.

End Main.

(** ** Notions used in the statements *)

(** The two column names of sentiment slot [i]. *)
Definition slot_names (i : Z) : list string :=
  ["sentiment_" +:+ Py.str i; "sentiment_" +:+ Py.str i +:+ "_reason"].

(** The widened header and the widened data row, in closed form. *)
Definition widen_header (scores : Z) (h : Row) : Row :=
  h ++ (seqZ 1 scores ≫= slot_names).

Definition widen_row (scores : Z) (r : Row) : Row :=
  r ++ replicate (2 * Z.to_nat scores) "".

(** The state of the widener's outer loop: the original store [σ0] is
    included in the current one, [augmented] holds the rows built so far, and
    those rows are new objects. *)
Definition widening (σ0 : Store.store) (augmented : Store.loc)
    (σ : Store.store) (acc : list Store.loc) (accT : list Row) : Prop :=
  σ0 ⊆ σ
  ∧ σ !! augmented = Some (Store.RowList acc)
  ∧ Forall2 (λ l r, Store.read_row σ l = Some r) acc accT
  ∧ Forall (λ l, σ0 !! l = None) acc.

(** Prompting touches standard input and output only. *)
Definition same_env (w w1 : Main.World) : Prop :=
  Main.http w1 = Main.http w
  ∧ Main.unwritable w1 = Main.unwritable w
  ∧ Main.files w1 = Main.files w
  ∧ Main.launched w1 = Main.launched w.

(** ** Sample inputs *)

Definition sample_store : Store.store :=
  {[ 1%positive := Store.StrList ["Date"; "Headline"];
     2%positive := Store.StrList ["2024-01-01"; "Stocks rise"];
     3%positive := Store.RowList [1%positive; 2%positive] ]}.

Definition sample_args (n : Z) : Main.Namespace :=
  Main.Args (Some n) (Some 1) "https://example.test/news.csv" "out.csv".

(** A world whose server answers every request with [body]. *)
Definition sample_world (body : Csv.text) : Main.World :=
  Main.MkWorld [] [] (λ _, Some body) (λ _, false) ∅ "linux" "posix" false [].

(** A cell of 131073 letters, one more than the reader's field limit. *)
Definition long_cell : string :=
  string_of_list_ascii (replicate (Z.to_nat 131073) "a"%char).

(** ** The written form of a field, and the reader over a whole text *)

(** What [join_append] adds for a cell under minimal quoting: the cell in
    quotes with its quotes doubled when it holds a special character, the
    cell as it is otherwise. *)
Definition encode_field (cell : string) : Csv.text :=
  let data := list_ascii_of_string cell in
  if existsb Csv.special data
  then [Csv.quotechar] ++ (data ≫= Csv.copy_char) ++ [Csv.quotechar]
  else data ≫= Csv.copy_char.

Definition more_encoded (cells : list string) : Csv.text :=
  cells ≫= (λ cell, Csv.delimiter :: encode_field cell).

(** The reader driven by the characters of the text instead of its lines:
    the end-of-line signal follows every LF and the last character. *)
Fixpoint read_stream (r : Csv.reader) (t : Csv.text) : Csv.result (list Row) :=
  match t with
  | [] => Csv.read_records r []
  | c :: t' =>
      match Csv.parse_process_char r (Csv.Char c) with
      | Csv.Err e => Csv.Err e
      | Csv.Ok r1 =>
          if decide (c = Csv.LF ∨ t' = []) then
            match Csv.parse_process_char r1 Csv.EOL with
            | Csv.Err e => Csv.Err e
            | Csv.Ok r2 =>
                if decide (Csv.st r2 = Csv.START_RECORD) then
                  match read_stream Csv.parse_reset t' with
                  | Csv.Ok rows => Csv.Ok (Csv.fields r2 :: rows)
                  | Csv.Err e => Csv.Err e
                  end
                else read_stream r2 t'
            end
          else read_stream r1 t'
      end
  end.

(** The states in which the reader stands once a written field is read. *)
Definition field_read (s : Csv.state) : Prop :=
  s = Csv.START_FIELD ∨ s = Csv.IN_FIELD ∨ s = Csv.QUOTE_IN_QUOTED_FIELD.

(** A table all of whose rows, header included, have the same length. *)
Definition rectangular (rows : Table) : Prop :=
  ∃ width : nat, Forall (λ row, length row = width) rows.

(** A table whose cells hold a comma, a quote, a line break. *)
Definition awkward_table : Table :=
  [["Date"; "Headline, with comma"];
   ["2024-01-01"; String Csv.quotechar ("Stocks" +:+ String Csv.quotechar " rise")];
   [""; String Csv.LF ("two" +:+ String Csv.CR (String Csv.LF "lines"))];
   [""]; []].

(** A line the loop for [args.rows] answers with its complaint: not an
    integer, or an integer that is not positive. *)
Definition rejected_rows (py_int : string → option Z) (py_strip : string → string)
    (line : string) : Prop :=
  match py_int (py_strip line) with
  | Some v => v ≤ 0
  | None => True
  end.

(** What the loop for [args.rows] prints for the lines it rejects: the
    prompt and the complaint, once per line. *)
Definition rows_dialogue (rejected : list string) : list string :=
  rejected ≫= (λ _, ["How many headlines should be included? ";
                      "Please enter a positive integer."]).

(** What the reader keeps true while it runs: the field being read and the
    fields already saved are within the field limit. *)
Definition within_limit (r : Csv.reader) : Prop :=
  Z.of_nat (length (Csv.field r)) ≤ Csv.field_limit
  ∧ Forall Csv.short_cell (Csv.fields r).

(** A stand-in for [int]: it reads "3" and "0" and refuses everything
    else. *)
Definition sample_int (s : string) : option Z :=
  if decide (s = "3") then Some 3
  else if decide (s = "0") then Some 0
  else None.

(** A world with the given lines on standard input, the given answer to
    every request, and every output path writable or none. *)
Definition make_world (lines : list string) (answer : option Csv.text)
    (blocked : bool) : Main.World :=
  Main.MkWorld lines [] (λ _, answer) (λ _, blocked) ∅ "linux" "posix" false [].

Definition sample_flags (rows scores : option Z) : Main.Namespace :=
  Main.Args rows scores "https://example.test/news.csv" "out.csv".

(** The record the writer builds for a row, before the line terminator. *)
Definition row_text (row : Row) : Csv.text :=
  match row with
  | [] => []
  | cell :: cells =>
      if decide (encode_field cell ++ more_encoded cells = [])
      then [Csv.quotechar; Csv.quotechar]
      else encode_field cell ++ more_encoded cells
  end.

(** The reader at the end of the record of [row]: untouched when the row has
    no cell, otherwise behind the last field, the earlier ones saved. *)
Definition row_read (r : Csv.reader) (row : Row) : Prop :=
  (r = Csv.parse_reset ∧ row = [])
  ∨ ∃ s b fs, field_read s
              ∧ r = Csv.Reader s (list_ascii_of_string b) fs
              ∧ row = fs ++ [b].

(** The two line ends the reader takes for the end of a record. *)
Definition line_end (e : Csv.text) : Prop :=
  e = [Csv.LF] ∨ e = [Csv.CR; Csv.LF].

(** Rows written one after the other, each with a line end of its own. *)
Definition rows_text (lines : list (Row * Csv.text)) : Csv.text :=
  concat ((λ line, row_text line.1 ++ line.2) <$> lines).

(** * Properties *)

(** The scenario of the specification, run on the embedding. *)
Example scenario_limit_then_widen :
  add_sentiment_columns
    (limit_rows [["Date"; "Headline"]; ["2024-01-01"; "Stocks rise"]] 1) 2
  = [["Date"; "Headline"; "sentiment_1"; "sentiment_1_reason";
      "sentiment_2"; "sentiment_2_reason"];
     ["2024-01-01"; "Stocks rise"; ""; ""; ""; ""]].
Proof. reflexivity. Qed.


(** ** Closed forms of the two loops *)

Lemma foldl_extend_header (l : list Z) (h : Row) :
  foldl extend_header h l = h ++ (l ≫= slot_names).
Proof.
  revert h. induction l as [|i l IH]; intros h; simpl.
  - by rewrite app_nil_r.
  - rewrite IH. unfold extend_header. by rewrite <- !app_assoc.
Qed.

Lemma foldl_extend_row (l : list Z) (r : Row) :
  foldl extend_row r l = r ++ replicate (2 * length l) "".
Proof.
  revert r. induction l as [|i l IH]; intros r; simpl.
  - by rewrite app_nil_r.
  - rewrite IH. unfold extend_row. rewrite <- !app_assoc. simpl.
    by replace (length l + S (length l + 0))%nat with (S (2 * length l)) by lia.
Qed.

Lemma foldl_snoc_fmap {A B} (f : A → B) (l : list A) (acc : list B) :
  foldl (λ acc x, acc ++ [f x]) acc l = acc ++ (f <$> l).
Proof.
  revert acc. induction l as [|x l IH]; intros acc; simpl.
  - by rewrite app_nil_r.
  - rewrite IH. by rewrite <- app_assoc.
Qed.

Lemma length_range (lo hi : Z) : length (Py.range lo hi) = Z.to_nat (hi - lo).
Proof. apply length_seqZ. Qed.

Lemma add_sentiment_columns_cons (h : Row) (d : list Row) (scores : Z) :
  add_sentiment_columns (h :: d) scores
  = widen_header scores h :: (widen_row scores <$> d).
Proof.
  unfold add_sentiment_columns.
  rewrite (foldl_snoc_fmap (λ row, foldl extend_row row (Py.range 0 scores))).
  rewrite foldl_extend_header. simpl. f_equal.
  - unfold widen_header, Py.range.
    by replace (scores + 1 - 1) with scores by lia.
  - apply list_fmap_ext; intros _ r _.
    rewrite foldl_extend_row, length_range. unfold widen_row.
    by replace (scores - 0) with scores by lia.
Qed.

Lemma limit_rows_cons (h : Row) (d : list Row) (n : Z) :
  limit_rows (h :: d) n = h :: Py.slice_upto d n.
Proof. reflexivity. Qed.

Lemma slot_names_lookup (l : list Z) (k : nat) :
  (l ≫= slot_names) !! (2 * k)%nat = (λ i, "sentiment_" +:+ Py.str i) <$> l !! k
  ∧ (l ≫= slot_names) !! (2 * k + 1)%nat
    = (λ i, "sentiment_" +:+ Py.str i +:+ "_reason") <$> l !! k.
Proof.
  revert k. induction l as [|i l IH]; intros k; [done|].
  destruct k as [|k]; [done|].
  replace (2 * S k)%nat with (S (S (2 * k))) by lia.
  replace (S (S (2 * k)) + 1)%nat with (S (S (2 * k + 1))) by lia.
  simpl. apply IH.
Qed.

Lemma length_slot_names (l : list Z) :
  length (l ≫= slot_names) = (2 * length l)%nat.
Proof.
  induction l as [|i l IH]; [done|].
  rewrite bind_cons, length_app, IH. simpl. lia.
Qed.

Lemma slice_upto_nonneg {A} (l : list A) (n : Z) :
  0 ≤ n → Py.slice_upto l n = take (Z.to_nat n) l.
Proof.
  intros Hn. unfold Py.slice_upto, Py.adjust_stop.
  destruct (decide (n < 0)) as [|_]; [lia|].
  destruct (decide (Z.of_nat (length l) ≤ n)) as [Hle|]; [|done].
  rewrite Nat2Z.id, firstn_all. symmetry. apply take_ge. lia.
Qed.

Lemma slice_upto_neg {A} (l : list A) (n : Z) :
  n < 0 → Py.slice_upto l n = take (length l - Z.to_nat (- n)) l.
Proof.
  intros Hn. unfold Py.slice_upto, Py.adjust_stop.
  destruct (decide (n < 0)) as [_|]; [|lia].
  destruct (decide (n + Z.of_nat (length l) < 0)) as [Hlt|Hge].
  - by replace (length l - Z.to_nat (- n))%nat with 0%nat by lia.
  - f_equal. lia.
Qed.

Lemma slice_upto_fmap {A B} (f : A → B) (l : list A) (n : Z) :
  Py.slice_upto (f <$> l) n = f <$> Py.slice_upto l n.
Proof. unfold Py.slice_upto. by rewrite length_fmap, fmap_take. Qed.

(** ** The claims *)

(** C1. For a table with a header row and [scores] in [1,5], the widened
    header is the old header followed by exactly [2*scores] names, which are
    sentiment_1, sentiment_1_reason, ..., sentiment_scores,
    sentiment_scores_reason in that order (the first [2*scores] of the ten
    names written out below); there are as many data rows as before, and each
    is its old self followed by [2*scores] empty strings. *)
Theorem add_sentiment_columns_widens (T : Table) (scores : Z) (h : Row) :
  1 ≤ scores ≤ 5 →
  header_of T = Some h →
  ∃ h' : Row,
    header_of (add_sentiment_columns T scores) = Some h'
    ∧ length h' = (length h + 2 * Z.to_nat scores)%nat
    ∧ take (length h) h' = h
    ∧ drop (length h) h'
      = take (2 * Z.to_nat scores)
          ["sentiment_1"; "sentiment_1_reason";
           "sentiment_2"; "sentiment_2_reason";
           "sentiment_3"; "sentiment_3_reason";
           "sentiment_4"; "sentiment_4_reason";
           "sentiment_5"; "sentiment_5_reason"]
    ∧ length (data_of (add_sentiment_columns T scores)) = length (data_of T)
    ∧ (∀ (k : nat) (r : Row), data_of T !! k = Some r →
         ∃ r' : Row,
           data_of (add_sentiment_columns T scores) !! k = Some r'
           ∧ length r' = (length r + 2 * Z.to_nat scores)%nat
           ∧ take (length r) r' = r
           ∧ drop (length r) r' = replicate (2 * Z.to_nat scores) "").
Proof.
  intros Hs Hh. destruct T as [|h0 d]; [done|].
  simpl in Hh. injection Hh as ->.
  rewrite add_sentiment_columns_cons. exists (widen_header scores h).
  unfold widen_header, data_of, header_of. cbn [head tail hd_error tl].
  split; [done|]. split; [|split; [|split; [|split]]].
  - rewrite length_app, length_slot_names, length_seqZ. lia.
  - by rewrite take_app_length.
  - rewrite drop_app_length.
    assert (scores = 1 ∨ scores = 2 ∨ scores = 3 ∨ scores = 4 ∨ scores = 5)
      as Hcases by lia.
    by destruct Hcases as [-> | [-> | [-> | [-> | ->]]]].
  - by rewrite length_fmap.
  - intros k r Hk. exists (widen_row scores r). unfold widen_row.
    rewrite list_lookup_fmap, Hk. repeat split.
    + rewrite length_app, length_replicate. lia.
    + by rewrite take_app_length.
    + by rewrite drop_app_length.
Qed.

Lemma add_sentiment_columns_widens_witness :
  ∃ h' : Row,
    header_of (add_sentiment_columns [["Date"]; ["d1"]; ["d2"; "x"]] 2) = Some h'
    ∧ length h' = 5%nat
    ∧ take 1 h' = ["Date"]
    ∧ drop 1 h'
      = ["sentiment_1"; "sentiment_1_reason"; "sentiment_2"; "sentiment_2_reason"]
    ∧ ∃ r' : Row,
        data_of (add_sentiment_columns [["Date"]; ["d1"]; ["d2"; "x"]] 2) !! 1%nat
        = Some r'
        ∧ take 2 r' = ["d2"; "x"]
        ∧ drop 2 r' = [""; ""; ""; ""].
Proof.
  destruct (add_sentiment_columns_widens [["Date"]; ["d1"]; ["d2"; "x"]] 2 ["Date"])
    as (h' & Hh & Hlen & Htake & Hdrop & _ & Hrows); [lia | reflexivity |].
  destruct (Hrows 1%nat ["d2"; "x"]) as (r' & Hr & _ & Hrt & Hrd); [reflexivity|].
  exists h'. split; [exact Hh|]. split; [exact Hlen|]. split; [exact Htake|].
  split; [exact Hdrop|]. exists r'. split; [exact Hr|]. split; [exact Hrt|exact Hrd].
Defined.

(** C2. For N >= 0 the limiter keeps the header and exactly the first
    min(N, number of data rows) data rows, in their order. *)
Theorem limit_rows_prefix (T : Table) (N : Z) :
  0 ≤ N →
  header_of (limit_rows T N) = header_of T
  ∧ data_of (limit_rows T N)
    = take (Z.to_nat N `min` length (data_of T)) (data_of T)
  ∧ length (data_of (limit_rows T N))
    = (Z.to_nat N `min` length (data_of T))%nat.
Proof.
  intros HN. destruct T as [|h d].
  { unfold header_of, data_of; simpl. by rewrite Nat.min_0_r. }
  rewrite limit_rows_cons, slice_upto_nonneg by done.
  unfold header_of, data_of; simpl. split; [done|]. split.
  - destruct (Nat.min_spec (Z.to_nat N) (length d)) as [[? ->]|[? ->]]; [done|].
    rewrite firstn_all. apply take_ge. lia.
  - apply length_take.
Qed.

Lemma limit_rows_prefix_witness :
  header_of (limit_rows [["H"]; ["a"]; ["b"]; ["c"]] 2) = Some ["H"]
  ∧ data_of (limit_rows [["H"]; ["a"]; ["b"]; ["c"]] 2) = [["a"]; ["b"]].
Proof.
  destruct (limit_rows_prefix [["H"]; ["a"]; ["b"]; ["c"]] 2) as (Hh & Hd & _);
    [lia|].
  split; [exact Hh | exact Hd].
Defined.

(** C4. Widening twice with the same [scores] appends twice: the header of
    the result is [4*scores] longer than the original one, and the result
    differs from the table widened once. *)
Theorem add_sentiment_columns_not_idempotent (T : Table) (h : Row) (scores : Z) :
  1 ≤ scores →
  header_of T = Some h →
  (∃ h2 : Row,
     header_of (add_sentiment_columns (add_sentiment_columns T scores) scores)
       = Some h2
     ∧ Z.of_nat (length h2) = Z.of_nat (length h) + 4 * scores)
  ∧ add_sentiment_columns (add_sentiment_columns T scores) scores
    ≠ add_sentiment_columns T scores.
Proof.
  intros Hs Hh. destruct T as [|h0 d]; [done|].
  simpl in Hh. injection Hh as ->.
  rewrite !add_sentiment_columns_cons. split.
  - eexists. split; [reflexivity|].
    unfold widen_header.
    rewrite !length_app, !length_slot_names, !length_seqZ. lia.
  - intros Heq. injection Heq as Heq _.
    apply (f_equal length) in Heq. unfold widen_header in Heq.
    rewrite !length_app, !length_slot_names, !length_seqZ in Heq. lia.
Qed.

Lemma add_sentiment_columns_not_idempotent_witness :
  add_sentiment_columns (add_sentiment_columns [["Date"]; ["d1"]] 3) 3
  ≠ add_sentiment_columns [["Date"]; ["d1"]] 3.
Proof.
  apply (add_sentiment_columns_not_idempotent [["Date"]; ["d1"]] ["Date"] 3);
    [lia | reflexivity].
Defined.

(** C6. A limit of 0 on a non-empty table gives the header row alone. *)
Theorem limit_rows_zero (T : Table) :
  T ≠ [] →
  ∃ h : Row, header_of T = Some h ∧ limit_rows T 0 = [h]
             ∧ data_of (limit_rows T 0) = [].
Proof.
  intros HT. destruct T as [|h d]; [done|].
  exists h. by rewrite limit_rows_cons, slice_upto_nonneg.
Qed.

Lemma limit_rows_zero_witness :
  ∃ h : Row, header_of [["H"; "K"]; ["a"; "b"]] = Some h
             ∧ limit_rows [["H"; "K"]; ["a"; "b"]] 0 = [h]
             ∧ data_of (limit_rows [["H"; "K"]; ["a"; "b"]] 0) = [].
Proof. apply (limit_rows_zero [["H"; "K"]; ["a"; "b"]]). discriminate. Defined.

(** C9. Limiting and widening commute: for n >= 0 and [scores] in [1,5],
    widening the limited table is limiting the widened one. *)
Theorem limit_widen_commute (T : Table) (n scores : Z) :
  0 ≤ n → 1 ≤ scores ≤ 5 →
  add_sentiment_columns (limit_rows T n) scores
  = limit_rows (add_sentiment_columns T scores) n.
Proof.
  intros _ _. destruct T as [|h d]; [done|].
  by rewrite limit_rows_cons, !add_sentiment_columns_cons, limit_rows_cons,
    slice_upto_fmap.
Qed.

Lemma limit_widen_commute_witness :
  add_sentiment_columns (limit_rows [["H"]; ["a"]; ["b"]; ["c"]] 2) 1
  = limit_rows (add_sentiment_columns [["H"]; ["a"]; ["b"]; ["c"]] 1) 2.
Proof. apply limit_widen_commute; lia. Defined.

(** ** The object-level functions against the value-level ones *)

Ltac munfold :=
  unfold mbind, mret, Store.M_bind, Store.M_ret.

Lemma new_fresh (o : Store.obj) (σ : Store.store) :
  ∃ l, Store.new o σ = Some (l, <[l := o]> σ) ∧ σ !! l = None.
Proof.
  exists (fresh (dom σ)). split; [done|].
  apply not_elem_of_dom, is_fresh.
Qed.

Lemma read_row_weaken (σ σ' : Store.store) (l : Store.loc) (r : Row) :
  σ ⊆ σ' → Store.read_row σ l = Some r → Store.read_row σ' l = Some r.
Proof.
  unfold Store.read_row. intros Hsub Hr.
  destruct (σ !! l) as [[cells|rows]|] eqn:Hl; try done.
  by rewrite (lookup_weaken _ _ _ _ Hl Hsub).
Qed.

Lemma read_rows_weaken (σ σ' : Store.store) (ls : list Store.loc) (rs : list Row) :
  σ ⊆ σ' → mapM (Store.read_row σ) ls = Some rs →
  mapM (Store.read_row σ') ls = Some rs.
Proof.
  intros Hsub. rewrite !mapM_Some. intros HF.
  eapply Forall2_impl; [exact HF|]. intros l r. by apply read_row_weaken.
Qed.

Lemma read_rows_slice (σ : Store.store) (ls : list Store.loc) (rs : list Row) (n : Z) :
  mapM (Store.read_row σ) ls = Some rs →
  mapM (Store.read_row σ) (Py.slice_upto ls n) = Some (Py.slice_upto rs n).
Proof.
  rewrite !mapM_Some. intros HF. unfold Py.slice_upto.
  rewrite (Forall2_length _ _ _ HF). by apply Forall2_take.
Qed.

Lemma limit_rows_refines (σ : Store.store) (t : Store.loc) (T : Table) (n : Z) :
  Store.read_table σ t = Some T →
  ∃ t' σ',
    Store.limit_rows t n σ = Some (t', σ')
    ∧ σ ⊆ σ'
    ∧ Store.read_table σ' t' = Some (limit_rows T n)
    ∧ (T ≠ [] → σ !! t' = None).
Proof.
  unfold Store.read_table, Store.limit_rows. munfold. unfold Store.get_rows at 1.
  destruct (σ !! t) as [[cells|items]|] eqn:Ht; try done.
  intros HT. destruct items as [|header rest].
  { injection HT as <-. exists t, σ. unfold Store.read_table.
    by rewrite Ht. }
  apply mapM_Some in HT.
  destruct T as [|h d]; [by apply Forall2_nil_inv_r in HT|].
  apply Forall2_cons_1 in HT as [Hh Hd]. apply mapM_Some in Hd.
  destruct (new_fresh (Store.RowList rest) σ) as (l1 & -> & Hl1).
  set (σ1 := <[l1 := Store.RowList rest]> σ).
  unfold Store.get_rows at 1. unfold σ1 at 1. rewrite lookup_insert_eq.
  destruct (new_fresh (Store.RowList (Py.slice_upto rest n)) σ1) as (l2 & -> & Hl2).
  set (σ2 := <[l2 := _]> σ1).
  destruct (new_fresh (Store.RowList [header]) σ2) as (l3 & -> & Hl3).
  set (σ3 := <[l3 := _]> σ2).
  assert (l2 ≠ l3) as Hne.
  { intros <-. unfold σ2 in Hl3. by rewrite lookup_insert_eq in Hl3. }
  unfold Store.get_rows. unfold σ3 at 1. rewrite lookup_insert_eq.
  unfold σ3 at 1. rewrite lookup_insert_ne by done.
  unfold σ2 at 1. rewrite lookup_insert_eq.
  destruct (new_fresh (Store.RowList ([header] ++ Py.slice_upto rest n)) σ3)
    as (l4 & -> & Hl4).
  set (σ4 := <[l4 := _]> σ3).
  assert (σ ⊆ σ3) as Hsub3.
  { unfold σ3, σ2, σ1. by do 3 (etrans; [|by apply insert_subseteq]). }
  assert (σ ⊆ σ4) as Hsub4.
  { etrans; [exact Hsub3|]. by apply insert_subseteq. }
  exists l4, σ4. split; [done|]. split; [done|]. split.
  - unfold Store.read_table. unfold σ4 at 1. rewrite lookup_insert_eq.
    rewrite limit_rows_cons. apply mapM_Some. simpl. constructor.
    + by apply (read_row_weaken σ).
    + apply mapM_Some, read_rows_slice. by apply (read_rows_weaken σ).
  - intros _. destruct (σ !! l4) as [o|] eqn:Hl; [|done].
    by rewrite (lookup_weaken _ _ _ _ Hl Hsub3) in Hl4.
Qed.

Lemma bind_run {A B} (m : Store.M A) (k : A → Store.M B) (σ : Store.store) :
  (m ≫= k) σ = match m σ with Some (a, σ') => k a σ' | None => None end.
Proof. reflexivity. Qed.

Lemma append_cell_run (σ : Store.store) (l : Store.loc) (cells : list string)
    (x : string) :
  σ !! l = Some (Store.StrList cells) →
  Store.append_cell l x σ = Some ((), <[l := Store.StrList (cells ++ [x])]> σ).
Proof. intros Hl. unfold Store.append_cell. by rewrite Hl. Qed.

Lemma for_each_append_cells {A} (f g : A → string) (l : Store.loc)
    (xs : list A) (σ : Store.store) (cells : list string) :
  σ !! l = Some (Store.StrList cells) →
  Store.for_each xs (λ x, _ ← Store.append_cell l (f x); Store.append_cell l (g x)) σ
  = Some ((), <[l := Store.StrList (foldl (λ acc x, (acc ++ [f x]) ++ [g x]) cells xs)]> σ).
Proof.
  revert σ cells. induction xs as [|x xs IH]; intros σ cells Hl; simpl.
  - unfold mret, Store.M_ret. by rewrite insert_id.
  - rewrite !bind_run, (append_cell_run σ l cells) by done.
    rewrite (append_cell_run _ l (cells ++ [f x])) by apply lookup_insert_eq.
    rewrite insert_insert_eq.
    rewrite (IH _ ((cells ++ [f x]) ++ [g x])) by apply lookup_insert_eq.
    by rewrite insert_insert_eq.
Qed.

Lemma copy_run (σ : Store.store) (l : Store.loc) (r : Row) :
  Store.read_row σ l = Some r →
  ∃ l', Store.copy l σ = Some (l', <[l' := Store.StrList r]> σ) ∧ σ !! l' = None.
Proof.
  unfold Store.read_row, Store.copy. rewrite bind_run. unfold Store.get_cells.
  destruct (σ !! l) as [[cells|?]|]; try done. intros [= ->].
  apply new_fresh.
Qed.

Lemma widen_rows_loop (σ0 : Store.store) (augmented : Store.loc) (scores : Z)
    (ls : list Store.loc) (rs : list Row) :
  σ0 !! augmented = None →
  Forall2 (λ l r, Store.read_row σ0 l = Some r) ls rs →
  ∀ σ acc accT,
    widening σ0 augmented σ acc accT →
    ∃ σ' acc',
      Store.for_each ls (λ row,
          new_row ← Store.copy row;
          _ ← Store.for_each (Py.range 0 scores) (λ _,
                _ ← Store.append_cell new_row "";
                Store.append_cell new_row "");
          Store.append_row augmented new_row) σ
      = Some ((), σ')
      ∧ widening σ0 augmented σ' acc' (accT ++ (widen_row scores <$> rs)).
Proof.
  intros Haug HF. induction HF as [|l r ls rs Hl HF IH];
    intros σ acc accT (Hsub & Hacc & Hrows & Hnew).
  { exists σ, acc. simpl. by rewrite app_nil_r. }
  simpl. rewrite !bind_run.
  pose proof (read_row_weaken _ _ _ _ Hsub Hl) as Hl'.
  destruct (copy_run σ l r Hl') as (nr & -> & Hnr).
  rewrite !bind_run.
  rewrite (for_each_append_cells (λ _, "") (λ _, "") nr _ _ r)
    by apply lookup_insert_eq.
  rewrite insert_insert_eq.
  change (foldl _ r (Py.range 0 scores))
    with (foldl extend_row r (Py.range 0 scores)).
  rewrite foldl_extend_row, length_range.
  replace (scores - 0) with scores by lia. fold (widen_row scores r).
  assert (nr ≠ augmented) as Hne by (intros ->; congruence).
  unfold Store.append_row. rewrite lookup_insert_ne, Hacc by done.
  set (σ' := <[augmented := _]> _).
  assert (σ ⊆ <[nr := Store.StrList (widen_row scores r)]> σ) as Hσ
    by by apply insert_subseteq.
  destruct (IH σ' (acc ++ [nr]) (accT ++ [widen_row scores r]))
    as (σ'' & acc'' & Hrun & Hw).
  { unfold widening, σ'. split; [|split; [|split]].
    - apply insert_subseteq_r; [done|]. by etrans.
    - apply lookup_insert_eq.
    - apply Forall2_app.
      + eapply Forall2_impl; [exact Hrows|]. intros l0 r0 Hr0.
        unfold Store.read_row in *.
        destruct (σ !! l0) as [[c0|?]|] eqn:Hl0; try done.
        rewrite lookup_insert_ne by congruence.
        by rewrite (lookup_weaken _ _ _ _ Hl0 Hσ).
      + constructor; [|constructor]. unfold Store.read_row.
        by rewrite lookup_insert_ne, lookup_insert_eq by done.
    - apply Forall_app. split; [done|]. constructor; [|constructor].
      destruct (σ0 !! nr) as [o|] eqn:H0; [|done].
      by rewrite (lookup_weaken _ _ _ _ H0 Hsub) in Hnr. }
  exists σ'', acc''. split; [exact Hrun|].
  by rewrite <- app_assoc in Hw.
Qed.

Lemma add_sentiment_columns_refines (σ : Store.store) (t : Store.loc)
    (T : Table) (scores : Z) :
  Store.read_table σ t = Some T →
  ∃ t' σ',
    Store.add_sentiment_columns t scores σ = Some (t', σ')
    ∧ σ ⊆ σ'
    ∧ Store.read_table σ' t' = Some (add_sentiment_columns T scores)
    ∧ (T ≠ [] →
       σ !! t' = None
       ∧ ∃ rows, σ' !! t' = Some (Store.RowList rows)
                 ∧ Forall (λ l, σ !! l = None) rows).
Proof.
  unfold Store.read_table, Store.add_sentiment_columns.
  rewrite bind_run. unfold Store.get_rows at 1.
  destruct (σ !! t) as [[cells|items]|] eqn:Ht; try done.
  intros HT. destruct items as [|header rest].
  { injection HT as <-. exists t, σ. unfold Store.read_table.
    by rewrite Ht. }
  apply mapM_Some in HT.
  destruct T as [|h d]; [by apply Forall2_nil_inv_r in HT|].
  apply Forall2_cons_1 in HT as [Hh Hd].
  rewrite !bind_run.
  destruct (copy_run σ header h Hh) as (nh & -> & Hnh).
  rewrite !bind_run.
  rewrite (for_each_append_cells
             (λ i, "sentiment_" +:+ Py.str i)
             (λ i, "sentiment_" +:+ Py.str i +:+ "_reason") nh _ _ h)
    by apply lookup_insert_eq.
  rewrite insert_insert_eq.
  change (foldl _ h (Py.range 1 (scores + 1)))
    with (foldl extend_header h (Py.range 1 (scores + 1))).
  rewrite foldl_extend_header.
  change (Py.range 1 (scores + 1)) with (seqZ 1 (scores + 1 - 1)).
  replace (scores + 1 - 1) with scores by lia. fold (widen_header scores h).
  set (σ1 := <[nh := _]> σ).
  rewrite !bind_run.
  destruct (new_fresh (Store.RowList [nh]) σ1) as (aug & -> & Haug).
  set (σ2 := <[aug := _]> σ1).
  rewrite !bind_run.
  destruct (new_fresh (Store.RowList rest) σ2) as (tl & -> & Htl).
  set (σ3 := <[tl := _]> σ2).
  rewrite !bind_run. unfold Store.get_rows at 1.
  unfold σ3 at 1. rewrite lookup_insert_eq.
  assert (nh ≠ aug) as Hne1.
  { intros <-. unfold σ1 in Haug. by rewrite lookup_insert_eq in Haug. }
  assert (aug ≠ tl) as Hne2.
  { intros <-. unfold σ2 in Htl. by rewrite lookup_insert_eq in Htl. }
  assert (nh ≠ tl) as Hne3.
  { intros <-. unfold σ2, σ1 in Htl.
    by rewrite lookup_insert_ne, lookup_insert_eq in Htl. }
  assert (σ ⊆ σ3) as Hsub3.
  { unfold σ3, σ2, σ1. by do 3 (etrans; [|by apply insert_subseteq]). }
  assert (σ !! aug = None) as Haug0.
  { unfold σ1 in Haug. by rewrite lookup_insert_ne in Haug. }
  rewrite bind_run.
  destruct (widen_rows_loop σ aug scores rest d Haug0 Hd σ3 [nh]
              [widen_header scores h]) as (σ' & acc' & -> & Hw).
  { split; [done|]. split; [|split].
    - unfold σ3, σ2. by rewrite lookup_insert_ne, lookup_insert_eq.
    - constructor; [|constructor]. unfold Store.read_row, σ3, σ2, σ1.
      by rewrite !lookup_insert_ne, lookup_insert_eq by done.
    - by constructor. }
  destruct Hw as (Hsub & Hacc & Hrows & Hnew).
  exists aug, σ'. split; [done|]. split; [done|]. split.
  - unfold Store.read_table. rewrite Hacc, add_sentiment_columns_cons.
    by apply mapM_Some.
  - intros _. split; [done|]. by exists acc'.
Qed.

Lemma read_table_weaken (σ σ' : Store.store) (t : Store.loc) (T : Table) :
  σ ⊆ σ' → Store.read_table σ t = Some T → Store.read_table σ' t = Some T.
Proof.
  unfold Store.read_table. intros Hsub HT.
  destruct (σ !! t) as [[cells|rows]|] eqn:Ht; try done.
  rewrite (lookup_weaken _ _ _ _ Ht Hsub). by apply (read_rows_weaken σ).
Qed.

(** C7. On the empty table both functions return their argument as it is:
    the value is the empty table, and at the object level the very same list
    object is returned and the store is left as it was. *)
Theorem empty_table_unchanged (σ : Store.store) (t : Store.loc) (scores n : Z) :
  Store.read_table σ t = Some [] →
  add_sentiment_columns [] scores = []
  ∧ limit_rows [] n = []
  ∧ Store.add_sentiment_columns t scores σ = Some (t, σ)
  ∧ Store.limit_rows t n σ = Some (t, σ).
Proof.
  unfold Store.read_table, Store.add_sentiment_columns, Store.limit_rows.
  rewrite !bind_run. unfold Store.get_rows.
  destruct (σ !! t) as [[cells|items]|]; try done.
  destruct items as [|header rest]; [done|].
  intros HT. apply mapM_Some in HT. by apply Forall2_nil_inv_r in HT.
Qed.

Lemma empty_table_unchanged_witness :
  add_sentiment_columns [] 3 = []
  ∧ limit_rows [] 7 = []
  ∧ Store.add_sentiment_columns 1%positive 3 {[1%positive := Store.RowList []]}
    = Some (1%positive, {[1%positive := Store.RowList []]})
  ∧ Store.limit_rows 1%positive 7 {[1%positive := Store.RowList []]}
    = Some (1%positive, {[1%positive := Store.RowList []]}).
Proof. apply empty_table_unchanged. reflexivity. Defined.

(** C10. Neither function mutates its input.  Run in any store where [t]
    denotes the table [T], each of them returns, every object of the initial
    store is unchanged in the final one (so [t] still denotes [T], rows
    included), and the result denotes the value-level result.  For a
    non-empty table the limiter's result is a new list object, and the
    widener's result is a new list object all of whose rows are new objects
    (the copies it appended to). *)
Theorem transformations_do_not_mutate_input (σ : Store.store) (t : Store.loc)
    (T : Table) (n scores : Z) :
  Store.read_table σ t = Some T →
  (∃ t' σ',
     Store.limit_rows t n σ = Some (t', σ')
     ∧ (∀ l o, σ !! l = Some o → σ' !! l = Some o)
     ∧ Store.read_table σ' t = Some T
     ∧ Store.read_table σ' t' = Some (limit_rows T n)
     ∧ (T ≠ [] → σ !! t' = None))
  ∧ (∃ t' σ',
       Store.add_sentiment_columns t scores σ = Some (t', σ')
       ∧ (∀ l o, σ !! l = Some o → σ' !! l = Some o)
       ∧ Store.read_table σ' t = Some T
       ∧ Store.read_table σ' t' = Some (add_sentiment_columns T scores)
       ∧ (T ≠ [] →
          σ !! t' = None
          ∧ ∃ rows, σ' !! t' = Some (Store.RowList rows)
                    ∧ Forall (λ l, σ !! l = None) rows)).
Proof.
  intros HT. split.
  - destruct (limit_rows_refines σ t T n HT) as (t' & σ' & Hrun & Hsub & Hres & Hnew).
    exists t', σ'. split; [done|]. split; [|split; [|done]].
    + intros l o Hl. by apply (lookup_weaken σ).
    + by apply (read_table_weaken σ).
  - destruct (add_sentiment_columns_refines σ t T scores HT)
      as (t' & σ' & Hrun & Hsub & Hres & Hnew).
    exists t', σ'. split; [done|]. split; [|split; [|done]].
    + intros l o Hl. by apply (lookup_weaken σ).
    + by apply (read_table_weaken σ).
Qed.

Lemma transformations_do_not_mutate_input_witness :
  ∃ t' σ',
    Store.add_sentiment_columns 3%positive 2 sample_store = Some (t', σ')
    ∧ Store.read_table σ' 3%positive
      = Some [["Date"; "Headline"]; ["2024-01-01"; "Stocks rise"]].
Proof.
  destruct (transformations_do_not_mutate_input sample_store 3%positive
              [["Date"; "Headline"]; ["2024-01-01"; "Stocks rise"]] 1 2)
    as [_ (t' & σ' & Hrun & _ & Hin & _)]; [reflexivity|].
  exists t', σ'. split; [exact Hrun | exact Hin].
Defined.

Example csv_write_sample :
  string_of_list_ascii (Csv.write_rows [["a"; "b,c"]; []; [""]; [""; "x"]])
  = string_of_list_ascii
      (list_ascii_of_string "a," ++ [Csv.quotechar] ++ list_ascii_of_string "b,c"
         ++ [Csv.quotechar; Csv.CR; Csv.LF; Csv.CR; Csv.LF;
             Csv.quotechar; Csv.quotechar; Csv.CR; Csv.LF]
         ++ list_ascii_of_string ",x" ++ [Csv.CR; Csv.LF]).
Proof. reflexivity. Qed.

Example csv_read_sample :
  Csv.read_text (Csv.write_rows [["a"; "b,c"]; []; [""]; [""; "x"]])
  = Csv.Ok [["a"; "b,c"]; []; [""]; [""; "x"]].
Proof. reflexivity. Qed.

(** ** The orchestrator *)

Section Orchestrator.

Variable py_int : string → option Z.
Variable py_strip : string → string.
Variable decode_utf8_sig : list ascii → Csv.text.

Lemma ask_rows_env (pending : list string) (w w1 : Main.World) (r : Main.exn + Z) :
  Main.ask_rows py_int py_strip pending w = (w1, r) → same_env w w1.
Proof.
  revert w. induction pending as [|line pending IH]; intros w; simpl.
  - intros [= <- _]. done.
  - destruct (py_int (py_strip line)) as [v|].
    + destruct (decide (v ≤ 0)).
      * intros H. by apply IH in H.
      * intros [= <- _]. done.
    + intros H. by apply IH in H.
Qed.

Lemma ask_scores_env (pending : list string) (w w1 : Main.World) (r : Main.exn + Z) :
  Main.ask_scores py_int py_strip pending w = (w1, r) → same_env w w1.
Proof.
  revert w. induction pending as [|line pending IH]; intros w; simpl.
  - intros [= <- _]. done.
  - destruct (py_int (py_strip line)) as [v|].
    + destruct (decide (1 ≤ v ≤ 5)).
      * intros [= <- _]. done.
      * intros H. by apply IH in H.
    + intros H. by apply IH in H.
Qed.

(** The loop for [args.rows] only ever returns a positive count. *)
Lemma ask_rows_positive (pending : list string) (w w1 : Main.World) (v : Z) :
  Main.ask_rows py_int py_strip pending w = (w1, inr v) → 0 < v.
Proof.
  revert w. induction pending as [|line pending IH]; intros w; simpl; [done|].
  destruct (py_int (py_strip line)) as [v'|].
  - destruct (decide (v' ≤ 0)).
    + apply IH.
    + intros [= _ <-]. lia.
  - apply IH.
Qed.

Lemma io_bind_run {A B} (m : Main.IO A) (k : A → Main.IO B) (w : Main.World) :
  (m ≫= k) w = match m w with
               | (w', inr a) => k a w'
               | (w', inl e) => (w', inl e)
               end.
Proof. reflexivity. Qed.

(** When [prompt_if_needed] returns, both counts are set, a count given on
    the command line is passed through as it is, and nothing but standard
    input and output has changed. *)
Lemma prompt_if_needed_returns (args args1 : Main.Namespace) (w w1 : Main.World) :
  Main.prompt_if_needed py_int py_strip args w = (w1, inr args1) →
  same_env w w1
  ∧ Main.finviz_url args1 = Main.finviz_url args
  ∧ Main.output args1 = Main.output args
  ∧ is_Some (Main.rows args1)
  ∧ is_Some (Main.scores args1)
  ∧ (∀ n, Main.rows args = Some n → Main.rows args1 = Some n)
  ∧ (∀ s, Main.scores args = Some s → Main.scores args1 = Some s).
Proof.
  unfold Main.prompt_if_needed. rewrite io_bind_run.
  destruct args as [r s url out]; simpl.
  destruct r as [n|]; simpl.
  - unfold mret at 1, Main.IO_ret at 1. simpl. destruct s as [s|]; simpl.
    + intros [= <- <-]. simpl. split_and!; eauto; done.
    + rewrite io_bind_run. unfold Main.input_scores.
      destruct (Main.ask_scores _ _ _ _) as [w' [e|v]] eqn:Hask; [done|].
      intros [= <- <-]. apply ask_scores_env in Hask. simpl.
      split_and!; eauto; done.
  - rewrite io_bind_run. unfold Main.input_rows.
    destruct (Main.ask_rows _ _ _ _) as [w' [e|v]] eqn:Hask; [done|].
    apply ask_rows_env in Hask.
    unfold mret at 1, Main.IO_ret at 1. simpl. destruct s as [s|]; simpl.
    + intros [= <- <-]. simpl. split_and!; eauto; done.
    + rewrite io_bind_run. unfold Main.input_scores.
      destruct (Main.ask_scores _ _ _ _) as [w'' [e|v']] eqn:Hask2; [done|].
      intros [= <- <-]. apply ask_scores_env in Hask2. simpl.
      destruct Hask as (? & ? & ? & ?), Hask2 as (? & ? & ? & ?).
      split_and!; eauto; try done. unfold same_env. split_and!; congruence.
Qed.

(** Without [--rows] the count comes from the validating loop. *)
Lemma prompt_if_needed_asks_rows (args args1 : Main.Namespace) (w w1 : Main.World) :
  Main.rows args = None →
  Main.prompt_if_needed py_int py_strip args w = (w1, inr args1) →
  ∃ v, Main.rows args1 = Some v ∧ 0 < v.
Proof.
  intros Hnone. unfold Main.prompt_if_needed. rewrite io_bind_run, Hnone.
  rewrite io_bind_run. unfold Main.input_rows.
  destruct (Main.ask_rows _ _ _ _) as [w' [e|v]] eqn:Hask; [done|].
  apply ask_rows_positive in Hask.
  unfold mret at 1, Main.IO_ret at 1. cbn [Main.scores].
  destruct (Main.scores args) as [s|].
  - intros [= _ <-]. by exists v.
  - rewrite io_bind_run. unfold Main.input_scores.
    destruct (Main.ask_scores _ _ _ _) as [w'' [e|v']]; [done|].
    intros [= _ <-]. by exists v.
Qed.

(** With both counts given on the command line nothing is asked. *)
Lemma prompt_if_needed_flags (args : Main.Namespace) (w : Main.World) (n s : Z) :
  Main.rows args = Some n → Main.scores args = Some s →
  Main.prompt_if_needed py_int py_strip args w = (w, inr args).
Proof.
  intros Hn Hs. unfold Main.prompt_if_needed. rewrite io_bind_run, Hn.
  unfold mret at 1, Main.IO_ret at 1. by rewrite Hs.
Qed.

Ltac io_step :=
  rewrite io_bind_run;
  cbn [Main.print Main.the_int Main.raise mret Main.IO_ret].

Lemma fetch_run (url : string) (w : Main.World) (body : list ascii) (T : Table) :
  Main.http w url = Some body →
  Csv.read_text (decode_utf8_sig body) = Csv.Ok T →
  Main.fetch_finviz_csv decode_utf8_sig url w = (w, inr T).
Proof. intros Hb HT. unfold Main.fetch_finviz_csv. by rewrite Hb, HT. Qed.

Lemma main_no_data (args args1 : Main.Namespace) (w w1 : Main.World)
    (body : list ascii) :
  Main.prompt_if_needed py_int py_strip args w = (w1, inr args1) →
  Main.http w (Main.finviz_url args) = Some body →
  Csv.read_text (decode_utf8_sig body) = Csv.Ok [] →
  ∃ w',
    Main.main py_int py_strip decode_utf8_sig args w = (w', inl (Main.SystemExit 1))
    ∧ Main.files w' = Main.files w
    ∧ Main.launched w' = Main.launched w
    ∧ last (Main.stdout w') = Some "No data returned from Finviz.".
Proof.
  intros Hp Hb HT.
  destruct (prompt_if_needed_returns _ _ _ _ Hp)
    as ((Hhttp & _ & Hfiles & Hl) & Hurl & _ & [n Hn] & [s Hs] & _).
  unfold Main.main. rewrite io_bind_run, Hp, Hn, Hs. do 4 io_step.
  rewrite (fetch_run _ _ body []); [|by rewrite Hurl; simpl; rewrite Hhttp|done].
  io_step. destruct (decide ([] = [])) as [_|]; [|done]. io_step. eexists. split; [reflexivity|]. simpl.
  split_and!; [done|done|]. by rewrite last_snoc.
Qed.

(** [try_open_file] always returns, and leaves files and output alone. *)
Lemma try_open_file_run (path : string) (w : Main.World) :
  ∃ w', Main.try_open_file path w = (w', inr ())
        ∧ Main.files w' = Main.files w
        ∧ Main.stdout w' = Main.stdout w.
Proof.
  unfold Main.try_open_file.
  destruct (String.prefix "linux" (Main.platform w));
    [|destruct (decide (Main.platform w = "darwin"));
      [|destruct (decide (Main.os_name w = "nt"))]];
    try (destruct (Main.spawn_fails w)); by eexists.
Qed.

Lemma main_completes (args args1 : Main.Namespace) (w w1 : Main.World)
    (body : list ascii) (T : Table) (n s : Z) :
  Main.prompt_if_needed py_int py_strip args w = (w1, inr args1) →
  Main.rows args1 = Some n →
  Main.scores args1 = Some s →
  Main.http w (Main.finviz_url args) = Some body →
  Csv.read_text (decode_utf8_sig body) = Csv.Ok T →
  T ≠ [] →
  Main.unwritable w (Main.output args) = false →
  ∃ w',
    Main.main py_int py_strip decode_utf8_sig args w = (w', inr ())
    ∧ Main.files w'
      = <[Main.output args := Csv.write_rows (add_sentiment_columns (limit_rows T n) s)]>
          (Main.files w)
    ∧ last (Main.stdout w') = Some ("Saved: " +:+ Main.output args).
Proof.
  intros Hp Hn Hs Hb HT Hne Hw.
  destruct (prompt_if_needed_returns _ _ _ _ Hp)
    as ((Hhttp & Hunw & Hfiles & _) & Hurl & Hout & _).
  unfold Main.main. rewrite io_bind_run, Hp, Hn, Hs. do 4 io_step.
  rewrite (fetch_run _ _ body T); [|by rewrite Hurl; simpl; rewrite Hhttp|done].
  io_step. destruct (decide (T = [])) as [|_]; [done|].
  cbn [mret Main.IO_ret]. do 4 io_step.
  unfold Main.write_csv at 1. io_step.
  unfold Main.ensure_parent_dir at 1. cbn [Main.unwritable Main.set_stdout].
  rewrite Hunw, Hout, Hw. unfold Main.write_text at 1. do 2 io_step.
  match goal with
  | |- context [Main.try_open_file ?p ?w0] =>
      destruct (try_open_file_run p w0) as (w2 & -> & Hf2 & Ho2)
  end.
  io_step. eexists. split; [reflexivity|]. simpl. split.
  - rewrite Hf2. simpl. by rewrite Hfiles.
  - by rewrite last_snoc.
Qed.

(** C5. Once the inputs are collected and the fetch has answered: if the
    fetched table is empty, the run prints the no-data message last, ends
    with status 1 and the files are as they were; if it is not empty and the
    output path can be written, the run goes through to the end, ends with
    status 0 and the output file holds the limited, widened table. *)
Theorem main_exit_status (args args1 : Main.Namespace) (w w1 : Main.World)
    (body : list ascii) (T : Table) :
  Main.prompt_if_needed py_int py_strip args w = (w1, inr args1) →
  Main.http w (Main.finviz_url args) = Some body →
  Csv.read_text (decode_utf8_sig body) = Csv.Ok T →
  (T = [] →
   ∃ w',
     Main.run py_int py_strip decode_utf8_sig args w = (w', 1)
     ∧ last (Main.stdout w') = Some "No data returned from Finviz."
     ∧ Main.files w' = Main.files w)
  ∧ (T ≠ [] → Main.unwritable w (Main.output args) = false →
     ∃ w' n s,
       Main.rows args1 = Some n ∧ Main.scores args1 = Some s
       ∧ Main.run py_int py_strip decode_utf8_sig args w = (w', 0)
       ∧ Main.files w'
         = <[Main.output args := Csv.write_rows (add_sentiment_columns (limit_rows T n) s)]>
             (Main.files w)
       ∧ last (Main.stdout w') = Some ("Saved: " +:+ Main.output args)).
Proof.
  intros Hp Hb HT. split.
  - intros ->.
    destruct (main_no_data _ _ _ _ _ Hp Hb HT) as (w' & Hrun & Hf & _ & Hout).
    exists w'. unfold Main.run. by rewrite Hrun.
  - intros Hne Hw.
    destruct (prompt_if_needed_returns _ _ _ _ Hp)
      as (_ & _ & _ & [n Hn] & [s Hs] & _).
    destruct (main_completes _ _ _ _ _ _ n s Hp Hn Hs Hb HT Hne Hw)
      as (w' & Hrun & Hf & Hout).
    exists w', n, s. unfold Main.run. by rewrite Hrun.
Qed.

(** C8. For a negative count the limiter keeps the header and all data rows
    but the last |n|; and a negative [--rows] is not validated: prompting
    leaves it as it is, and the run writes the table limited with it.  Only
    a count that was asked for (no [--rows]) is known to be positive. *)
Theorem negative_rows_not_validated (h : Row) (d : list Row) (n : Z) :
  n < 0 →
  limit_rows (h :: d) n = h :: take (length d - Z.to_nat (- n)) d
  ∧ (∀ (args : Main.Namespace) (w : Main.World),
       Main.rows args = Some n →
       (∀ w1 args1,
          Main.prompt_if_needed py_int py_strip args w = (w1, inr args1) →
          Main.rows args1 = Some n)
       ∧ (∀ s body,
            Main.scores args = Some s →
            Main.http w (Main.finviz_url args) = Some body →
            Csv.read_text (decode_utf8_sig body) = Csv.Ok (h :: d) →
            Main.unwritable w (Main.output args) = false →
            ∃ w',
              Main.run py_int py_strip decode_utf8_sig args w = (w', 0)
              ∧ Main.files w' !! Main.output args
                = Some (Csv.write_rows
                          (add_sentiment_columns
                             (h :: take (length d - Z.to_nat (- n)) d) s))))
  ∧ (∀ (args args1 : Main.Namespace) (w w1 : Main.World),
       Main.rows args = None →
       Main.prompt_if_needed py_int py_strip args w = (w1, inr args1) →
       ∃ v, Main.rows args1 = Some v ∧ 0 < v).
Proof.
  intros Hn. split; [by rewrite limit_rows_cons, slice_upto_neg|].
  split; [|by apply prompt_if_needed_asks_rows].
  intros args w Hrows. split.
  - intros w1 args1 Hp.
    by apply (prompt_if_needed_returns _ _ _ _ Hp).
  - intros s body Hs Hb HT Hw.
    pose proof (prompt_if_needed_flags args w n s Hrows Hs) as Hp.
    destruct (main_completes _ _ _ _ _ _ n s Hp Hrows Hs Hb HT ltac:(done) Hw)
      as (w' & Hrun & Hf & Hout).
    exists w'. unfold Main.run. rewrite Hrun. split; [done|].
    by rewrite Hf, lookup_insert_eq, limit_rows_cons, slice_upto_neg.
Qed.

End Orchestrator.

Lemma main_exit_status_witness :
  ∃ w',
    Main.run (λ _, None) id id (sample_args 3) (sample_world []) = (w', 1)
    ∧ last (Main.stdout w') = Some "No data returned from Finviz."
    ∧ Main.files w' = Main.files (sample_world []).
Proof.
  apply (main_exit_status (λ _, None) id id (sample_args 3) (sample_args 3)
           (sample_world []) (sample_world []) [] []);
    reflexivity.
Defined.

Lemma negative_rows_not_validated_witness :
  limit_rows [["H"]; ["a"]; ["b"]; ["c"]] (-1) = [["H"]; ["a"]; ["b"]].
Proof.
  apply (negative_rows_not_validated (λ _, None) id id
           ["H"] [["a"]; ["b"]; ["c"]] (-1)).
  lia.
Defined.

(** ** The CSV writer on clean rows *)

Lemma special_false (c : ascii) :
  Csv.special c = false →
  c ≠ Csv.delimiter ∧ c ≠ Csv.quotechar ∧ c ≠ Csv.CR ∧ c ≠ Csv.LF.
Proof.
  unfold Csv.special. intros H%bool_decide_eq_false.
  unfold Csv.lineterminator in H. split_and!; intros ->; apply H; set_solver.
Qed.

Lemma clean_not_newline (c : ascii) :
  Csv.special c = false → Csv.is_newline c = false.
Proof.
  intros H. apply special_false in H as (_ & _ & ? & ?). unfold Csv.is_newline.
  apply bool_decide_eq_false. by intros [?|?].
Qed.

Lemma copy_clean (cs : Csv.text) :
  Forall (λ c, Csv.special c = false) cs → cs ≫= Csv.copy_char = cs.
Proof.
  induction 1 as [|c cs Hc _ IH]; [done|].
  rewrite bind_cons, IH. unfold Csv.copy_char.
  apply special_false in Hc as (_ & ? & _). by destruct (decide _).
Qed.

Lemma existsb_clean (cs : Csv.text) :
  Forall (λ c, Csv.special c = false) cs → existsb Csv.special cs = false.
Proof. induction 1 as [|c cs Hc _ IH]; [done|]. simpl. by rewrite Hc, IH. Qed.

Lemma join_append_clean (w : Csv.writer) (cell : string) :
  Csv.clean_cell cell →
  Csv.join_append w (Some cell) false
  = Csv.Writer
      (Csv.rec w ++ (if decide (0 < Csv.num_fields w)%nat then [Csv.delimiter] else [])
         ++ list_ascii_of_string cell)
      (S (Csv.num_fields w)).
Proof.
  intros Hc. unfold Csv.join_append. simpl.
  by rewrite existsb_clean, copy_clean.
Qed.

Lemma join_more_fields (cells : list string) (rec : Csv.text) (k : nat) :
  Forall Csv.clean_cell cells →
  foldl (λ w field, Csv.join_append w (Some field) false) (Csv.Writer rec (S k)) cells
  = Csv.Writer (rec ++ Csv.more_fields cells) (S k + length cells).
Proof.
  intros Hc. revert rec k. induction Hc as [|c cells Hc _ IH]; intros rec k.
  - simpl. by rewrite app_nil_r, Nat.add_0_r.
  - simpl foldl. rewrite join_append_clean by done. simpl Csv.num_fields.
    simpl Csv.rec. rewrite IH. unfold Csv.more_fields. rewrite bind_cons.
    rewrite decide_True by lia. f_equal.
    + by rewrite <- !app_assoc.
    + simpl. lia.
Qed.

(** The line written for a clean row. *)
Lemma writerow_clean (row : Row) :
  Forall Csv.clean_cell row →
  Csv.writerow row
  = match row with
    | [] => [Csv.CR; Csv.LF]
    | cell :: cells =>
        if decide (list_ascii_of_string cell ++ Csv.more_fields cells = [])
        then [Csv.quotechar; Csv.quotechar; Csv.CR; Csv.LF]
        else list_ascii_of_string cell ++ Csv.more_fields cells ++ [Csv.CR; Csv.LF]
    end.
Proof.
  intros Hrow. destruct Hrow as [|cell cells Hc Hcs]; [done|].
  unfold Csv.writerow. simpl foldl. rewrite join_append_clean by done.
  simpl. rewrite join_more_fields by done. simpl.
  destruct (decide (list_ascii_of_string cell ++ Csv.more_fields cells = []))
    as [Hnil|Hne].
  - rewrite Hnil. rewrite decide_True by (split; [lia|done]).
    apply app_eq_nil in Hnil as [_ Hnil]. by destruct cells.
  - rewrite decide_False by (intros [_ ?]; done).
    simpl. by rewrite <- app_assoc.
Qed.

Lemma write_rows_concat (rows : Table) (written : Csv.text) :
  foldl (λ written row, written ++ Csv.writerow row) written rows
  = written ++ concat (Csv.writerow <$> rows).
Proof.
  revert written. induction rows as [|row rows IH]; intros written; simpl.
  - by rewrite app_nil_r.
  - by rewrite IH, <- app_assoc.
Qed.

(** ** The CSV reader on the lines of clean rows *)

Lemma length_list_ascii_of_string (s : string) :
  length (list_ascii_of_string s) = String.length s.
Proof. induction s as [|c s IH]; simpl; [done|]. by rewrite IH. Qed.

Lemma process_line_app (r : Csv.reader) (cs1 cs2 : Csv.text) :
  Csv.process_line r (cs1 ++ cs2)
  = match Csv.process_chars r cs1 with
    | Csv.Ok r' => Csv.process_line r' cs2
    | Csv.Err e => Csv.Err e
    end.
Proof.
  revert r. induction cs1 as [|c cs1 IH]; intros r; simpl; [done|].
  destruct (Csv.parse_process_char r (Csv.Char c)); [apply IH|done].
Qed.

Lemma parse_add_char_ok (s : Csv.state) (f : Csv.text) (fs : list string) (c : ascii) :
  Z.of_nat (length f) < Csv.field_limit →
  Csv.parse_add_char (Csv.Reader s f fs) c = Csv.Ok (Csv.Reader s (f ++ [c]) fs).
Proof. intros Hf. unfold Csv.parse_add_char. simpl. by rewrite decide_False by lia. Qed.

Lemma in_field_chars (cs f : Csv.text) (fs : list string) :
  Forall (λ c, Csv.special c = false) cs →
  Z.of_nat (length f + length cs) ≤ Csv.field_limit →
  Csv.process_chars (Csv.Reader Csv.IN_FIELD f fs) cs
  = Csv.Ok (Csv.Reader Csv.IN_FIELD (f ++ cs) fs).
Proof.
  intros Hcs. revert f. induction Hcs as [|c cs Hc _ IH]; intros f Hlen.
  - simpl. by rewrite app_nil_r.
  - simpl in Hlen. simpl. unfold Csv.parse_process_char. simpl.
    rewrite clean_not_newline by done.
    apply special_false in Hc as (? & _).
    rewrite decide_False by done.
    rewrite parse_add_char_ok by lia.
    rewrite IH by (rewrite length_app; simpl; lia).
    by rewrite <- app_assoc.
Qed.

Lemma start_field_chars (cs : Csv.text) (fs : list string) :
  Forall (λ c, Csv.special c = false) cs →
  Z.of_nat (length cs) ≤ Csv.field_limit →
  ∃ s, Csv.process_chars (Csv.Reader Csv.START_FIELD [] fs) cs
       = Csv.Ok (Csv.Reader s cs fs)
       ∧ (s = Csv.START_FIELD ∨ s = Csv.IN_FIELD).
Proof.
  intros Hcs Hlen. destruct Hcs as [|c cs Hc Hcs].
  { exists Csv.START_FIELD. by split; [|left]. }
  exists Csv.IN_FIELD. split; [|by right].
  simpl in Hlen. simpl. unfold Csv.parse_process_char, Csv.process_start_field.
  simpl. rewrite clean_not_newline by done.
  apply special_false in Hc as (? & ? & _).
  rewrite !decide_False by done.
  unfold Csv.set_state. simpl.
  by rewrite in_field_chars by (simpl; try done; lia).
Qed.

Ltac csv_run :=
  repeat (progress (unfold Csv.parse_process_char, Csv.process_start_field,
                      Csv.end_of_record, Csv.set_state, Csv.parse_save_field;
                    simpl)).

Lemma rest_of_record (cells : list string) :
  Forall Csv.clean_cell cells →
  Forall Csv.short_cell cells →
  ∀ (s : Csv.state) (b : string) (fs : list string),
    s = Csv.START_FIELD ∨ s = Csv.IN_FIELD →
    Csv.process_line (Csv.Reader s (list_ascii_of_string b) fs)
      (Csv.more_fields cells ++ [Csv.CR; Csv.LF])
    = Csv.Ok (Csv.Reader Csv.START_RECORD [] (fs ++ b :: cells)).
Proof.
  intros Hclean. induction Hclean as [|c cells Hc _ IH];
    intros Hshort s b fs Hs.
  - destruct Hs as [-> | ->]; csv_run;
      by rewrite string_of_list_ascii_of_string.
  - apply Forall_cons in Hshort as [Hsc Hshort].
    unfold Csv.more_fields. rewrite bind_cons. fold (Csv.more_fields cells).
    change ((Csv.delimiter :: list_ascii_of_string c) ++ Csv.more_fields cells)
      with (Csv.delimiter :: (list_ascii_of_string c ++ Csv.more_fields cells)).
    cbn [app Csv.process_line].
    assert (Csv.parse_process_char
              (Csv.Reader s (list_ascii_of_string b) fs) (Csv.Char Csv.delimiter)
            = Csv.Ok (Csv.Reader Csv.START_FIELD [] (fs ++ [b]))) as ->.
    { destruct Hs as [-> | ->]; csv_run;
        by rewrite string_of_list_ascii_of_string. }
    rewrite <- app_assoc, process_line_app.
    destruct (start_field_chars (list_ascii_of_string c) (fs ++ [b]))
      as (s' & -> & Hs'); [done| |].
    { unfold Csv.short_cell in Hsc. by rewrite length_list_ascii_of_string. }
    rewrite (IH Hshort s' c (fs ++ [b]) Hs'). by rewrite <- app_assoc.
Qed.

Lemma start_record_first_char (c : ascii) (line : Csv.text) :
  Csv.is_newline c = false →
  Csv.process_line Csv.parse_reset (c :: line)
  = Csv.process_line (Csv.Reader Csv.START_FIELD [] []) (c :: line).
Proof.
  intros Hc. cbn [Csv.process_line].
  assert (Csv.parse_process_char Csv.parse_reset (Csv.Char c)
          = Csv.parse_process_char (Csv.Reader Csv.START_FIELD [] []) (Csv.Char c))
    as ->; [|done].
  unfold Csv.parse_process_char. simpl. by rewrite Hc.
Qed.

Lemma delimiter_not_newline : Csv.is_newline Csv.delimiter = false.
Proof. reflexivity. Qed.

(** Reading back the line written for a clean row gives the row. *)
Lemma process_line_written (row : Row) :
  Forall Csv.clean_cell row →
  Forall Csv.short_cell row →
  Csv.process_line Csv.parse_reset (Csv.writerow row)
  = Csv.Ok (Csv.Reader Csv.START_RECORD [] row).
Proof.
  intros Hclean Hshort. rewrite writerow_clean by done.
  destruct Hclean as [|cell cells Hc Hcs]; [done|].
  apply Forall_cons in Hshort as [Hsc Hss].
  destruct (decide _) as [Hnil|Hne].
  { apply app_eq_nil in Hnil as [Hcell Hcells].
    destruct cells; [|done]. by destruct cell. }
  assert (Csv.process_line (Csv.Reader Csv.START_FIELD [] [])
            (list_ascii_of_string cell ++ Csv.more_fields cells ++ [Csv.CR; Csv.LF])
          = Csv.Ok (Csv.Reader Csv.START_RECORD [] (cell :: cells))) as Hrun.
  { rewrite process_line_app.
    destruct (start_field_chars (list_ascii_of_string cell) [])
      as (s' & -> & Hs'); [done| |].
    { unfold Csv.short_cell in Hsc. by rewrite length_list_ascii_of_string. }
    by rewrite (rest_of_record cells Hcs Hss s' cell [] Hs'). }
  rewrite <- Hrun.
  destruct (list_ascii_of_string cell) as [|c cs] eqn:Hcell.
  - destruct cells as [|cell2 cells]; [done|].
    unfold Csv.more_fields. rewrite bind_cons. simpl app.
    apply start_record_first_char, delimiter_not_newline.
  - simpl app. apply start_record_first_char, clean_not_newline.
    unfold Csv.clean_cell in Hc. rewrite Hcell in Hc.
    by apply Forall_cons in Hc as [? _].
Qed.

Lemma lines_line (body rest : Csv.text) :
  Csv.LF ∉ body →
  Csv.lines (body ++ Csv.LF :: rest) = (body ++ [Csv.LF]) :: Csv.lines rest.
Proof.
  induction body as [|c body IH]; intros Hbody; cbn [app Csv.lines].
  - by rewrite decide_True.
  - apply not_elem_of_cons in Hbody as [Hc Hbody].
    rewrite decide_False by done. by rewrite IH.
Qed.

Lemma clean_cell_no_LF (cell : string) :
  Csv.clean_cell cell → Csv.LF ∉ list_ascii_of_string cell.
Proof.
  unfold Csv.clean_cell. intros Hc Hin.
  rewrite Forall_forall in Hc. apply Hc in Hin.
  by apply special_false in Hin as (_ & _ & _ & ?).
Qed.

Lemma more_fields_no_LF (cells : list string) :
  Forall Csv.clean_cell cells → Csv.LF ∉ Csv.more_fields cells.
Proof.
  induction 1 as [|c cells Hc _ IH]; [by apply not_elem_of_nil|].
  unfold Csv.more_fields. rewrite bind_cons. fold (Csv.more_fields cells).
  rewrite elem_of_app, elem_of_cons.
  intros [[?|?]|?]; [done| |done]. by apply (clean_cell_no_LF c).
Qed.

(** The line of a clean row ends with its only LF. *)
Lemma writerow_line (row : Row) :
  Forall Csv.clean_cell row →
  ∃ body, Csv.writerow row = body ++ [Csv.LF] ∧ Csv.LF ∉ body.
Proof.
  intros Hclean. rewrite writerow_clean by done.
  destruct Hclean as [|cell cells Hc Hcs].
  { exists [Csv.CR]. split; [done|]. by intros ?%list_elem_of_singleton. }
  destruct (decide _) as [_|_].
  { exists [Csv.quotechar; Csv.quotechar; Csv.CR]. split; [done|].
    rewrite !elem_of_cons, elem_of_nil. by intros [?|[?|[?|[]]]]. }
  exists (list_ascii_of_string cell ++ Csv.more_fields cells ++ [Csv.CR]).
  split; [by rewrite <- !app_assoc|].
  rewrite !elem_of_app, list_elem_of_singleton.
  intros [?|[?|?]]; [|by apply (more_fields_no_LF cells)|done].
  by apply (clean_cell_no_LF cell).
Qed.

Lemma lines_written (rows : Table) :
  Csv.clean_table rows →
  Csv.lines (concat (Csv.writerow <$> rows)) = Csv.writerow <$> rows.
Proof.
  induction 1 as [|row rows Hrow _ IH]; [done|].
  rewrite fmap_cons. simpl concat.
  destruct (writerow_line row Hrow) as (body & -> & Hbody).
  rewrite <- app_assoc. simpl app. by rewrite lines_line, IH.
Qed.

Lemma read_records_written (rows : Table) :
  Csv.clean_table rows → Csv.short_table rows →
  Csv.read_records Csv.parse_reset (Csv.writerow <$> rows) = Csv.Ok rows.
Proof.
  intros Hclean. induction Hclean as [|row rows Hrow _ IH]; intros Hshort;
    [done|].
  apply Forall_cons in Hshort as [Hsr Hshort].
  rewrite fmap_cons. simpl. rewrite process_line_written by done.
  simpl. by rewrite IH.
Qed.

Lemma write_rows_written (rows : Table) :
  Csv.write_rows rows = concat (Csv.writerow <$> rows).
Proof. unfold Csv.write_rows. by rewrite write_rows_concat. Qed.

(** C3, as amended.  A table whose cells hold no delimiter, quote character
    or line break, and none of which is longer than the reader's field limit
    (131072 characters), is read back from its written text cell by cell. *)
Theorem csv_round_trip (rows : Table) :
  Csv.clean_table rows →
  Csv.short_table rows →
  Csv.read_text (Csv.write_rows rows) = Csv.Ok rows.
Proof.
  intros Hclean Hshort. unfold Csv.read_text.
  rewrite write_rows_written, lines_written by done.
  by apply read_records_written.
Qed.

Lemma csv_round_trip_witness :
  Csv.read_text
    (Csv.write_rows [["Date"; "Headline"]; ["2024-01-01"; "Stocks rise"]; [""]; []])
  = Csv.Ok [["Date"; "Headline"]; ["2024-01-01"; "Stocks rise"]; [""]; []].
Proof.
  apply csv_round_trip.
  - unfold Csv.clean_table, Csv.clean_cell. repeat constructor.
  - unfold Csv.short_table, Csv.short_cell, Csv.field_limit.
    repeat constructor; simpl; lia.
Defined.

(** ** A field longer than the reader's limit *)

Lemma in_field_overflow (cs f : Csv.text) (fs : list string) (rest : Csv.text) :
  Forall (λ c, Csv.special c = false) cs →
  Z.of_nat (length f) ≤ Csv.field_limit →
  Csv.field_limit < Z.of_nat (length f + length cs) →
  Csv.process_line (Csv.Reader Csv.IN_FIELD f fs) (cs ++ rest)
  = Csv.Err Csv.FieldLargerThanLimit.
Proof.
  intros Hcs. revert f. induction Hcs as [|c cs Hc _ IH]; intros f Hf Hlen.
  - simpl in Hlen. lia.
  - simpl in Hlen. cbn [app Csv.process_line].
    unfold Csv.parse_process_char. cbn [Csv.st].
    rewrite clean_not_newline by done.
    apply special_false in Hc as (? & _). rewrite decide_False by done.
    destruct (decide (Csv.field_limit ≤ Z.of_nat (length f))) as [Hfull|Hroom].
    + unfold Csv.parse_add_char. cbn [Csv.field]. by rewrite decide_True.
    + rewrite parse_add_char_ok by lia.
      apply IH; rewrite length_app; simpl; lia.
Qed.

(** A row whose only cell is [k] letters, [k] above the limit, is written but
    cannot be read back: the reader raises. *)
Lemma overlong_cell_fails (k : nat) :
  Csv.field_limit < Z.of_nat k →
  Csv.clean_table [[string_of_list_ascii (replicate k "a"%char)]]
  ∧ Csv.read_text (Csv.write_rows [[string_of_list_ascii (replicate k "a"%char)]])
    = Csv.Err Csv.FieldLargerThanLimit.
Proof.
  intros Hk.
  assert (Forall (λ c, Csv.special c = false) (replicate k "a"%char)) as Hletters
    by by apply Forall_replicate.
  assert (Csv.clean_table [[string_of_list_ascii (replicate k "a"%char)]]) as Hclean.
  { repeat constructor. unfold Csv.clean_cell.
    by rewrite list_ascii_of_string_of_list_ascii. }
  split; [done|]. unfold Csv.read_text.
  rewrite write_rows_written, lines_written by done.
  rewrite fmap_cons, fmap_nil. cbn [Csv.read_records].
  rewrite writerow_clean by (by apply Forall_cons in Hclean as [? _]).
  rewrite list_ascii_of_string_of_list_ascii.
  destruct k as [|k]; [unfold Csv.field_limit in Hk; lia|].
  rewrite decide_False by done.
  cbn [replicate app]. rewrite start_record_first_char by done.
  cbn [Csv.process_line].
  assert (Csv.parse_process_char (Csv.Reader Csv.START_FIELD [] []) (Csv.Char "a")
          = Csv.Ok (Csv.Reader Csv.IN_FIELD ["a"%char] [])) as -> by done.
  rewrite in_field_overflow; [done| |unfold Csv.field_limit; simpl; lia|].
  - by apply Forall_replicate.
  - rewrite length_replicate. simpl length. lia.
Qed.

(** C3 as stated fails: a table whose single cell is 131073 letters has no
    delimiter, quote character or line break in it, and is not read back. *)
Lemma csv_round_trip_fails_on_long_cell :
  Csv.clean_table [[long_cell]]
  ∧ Csv.read_text (Csv.write_rows [[long_cell]]) ≠ Csv.Ok [[long_cell]].
Proof.
  unfold long_cell.
  destruct (overlong_cell_fails (Z.to_nat 131073)) as [Hclean Hread].
  { unfold Csv.field_limit. lia. }
  split; [exact Hclean|]. rewrite Hread. discriminate.
Qed.

(** ** The reader, character by character *)

Lemma lines_nil (t : Csv.text) : Csv.lines t = [] → t = [].
Proof.
  destruct t as [|c t]; [done|]. cbn [Csv.lines].
  destruct (decide (c = Csv.LF)); [done|]. by destruct (Csv.lines t).
Qed.

Lemma read_records_lines (t : Csv.text) (r : Csv.reader) :
  Csv.read_records r (Csv.lines t) = read_stream r t.
Proof.
  revert r. induction t as [|c t IH]; intros r; [done|].
  cbn [Csv.lines read_stream].
  destruct (decide (c = Csv.LF)) as [->|Hc].
  - cbn [Csv.read_records Csv.process_line].
    destruct (Csv.parse_process_char r (Csv.Char Csv.LF)) as [r1|e]; [|done].
    rewrite decide_True by by left.
    destruct (Csv.parse_process_char r1 Csv.EOL) as [r2|e]; [|done].
    destruct (decide (Csv.st r2 = Csv.START_RECORD)); by rewrite IH.
  - destruct (Csv.lines t) as [|l ls] eqn:Hl.
    + apply lines_nil in Hl as ->.
      cbn [Csv.read_records Csv.process_line read_stream].
      destruct (Csv.parse_process_char r (Csv.Char c)) as [r1|e]; [|done].
      destruct (decide (c = Csv.LF ∨ [] = [])) as [_|Hn]; [|by destruct Hn; right].
      destruct (Csv.parse_process_char r1 Csv.EOL) as [r2|e]; [|done].
      by destruct (decide (Csv.st r2 = Csv.START_RECORD)).
    + cbn [Csv.read_records Csv.process_line].
      destruct (Csv.parse_process_char r (Csv.Char c)) as [r1|e]; [|done].
      rewrite decide_False by (intros [?| ->]; done).
      rewrite <- IH. done.
Qed.

Lemma read_stream_char (r r1 : Csv.reader) (c : ascii) (t : Csv.text) :
  c ≠ Csv.LF → t ≠ [] →
  Csv.parse_process_char r (Csv.Char c) = Csv.Ok r1 →
  read_stream r (c :: t) = read_stream r1 t.
Proof.
  intros Hc Ht Hstep. cbn [read_stream]. rewrite Hstep.
  by rewrite decide_False by (intros [?|?]; done).
Qed.

Lemma read_stream_end_of_line (r r1 r2 : Csv.reader) (t : Csv.text) :
  Csv.parse_process_char r (Csv.Char Csv.LF) = Csv.Ok r1 →
  Csv.parse_process_char r1 Csv.EOL = Csv.Ok r2 →
  read_stream r (Csv.LF :: t)
  = if decide (Csv.st r2 = Csv.START_RECORD)
    then match read_stream Csv.parse_reset t with
         | Csv.Ok rows => Csv.Ok (Csv.fields r2 :: rows)
         | Csv.Err e => Csv.Err e
         end
    else read_stream r2 t.
Proof.
  intros H1 H2. cbn [read_stream]. rewrite H1.
  destruct (decide (Csv.LF = Csv.LF ∨ t = [])) as [_|Hn]; [|by destruct Hn; left].
  by rewrite H2.
Qed.

(** An unquoted run of ordinary characters. *)
Lemma stream_in_field (cs f : Csv.text) (fs : list string) (rest : Csv.text) :
  Forall (λ c, Csv.special c = false) cs →
  rest ≠ [] →
  Z.of_nat (length f + length cs) ≤ Csv.field_limit →
  read_stream (Csv.Reader Csv.IN_FIELD f fs) (cs ++ rest)
  = read_stream (Csv.Reader Csv.IN_FIELD (f ++ cs) fs) rest.
Proof.
  intros Hcs Hrest. revert f. induction Hcs as [|c cs Hc _ IH]; intros f Hlen.
  - by rewrite app_nil_r.
  - simpl in Hlen. cbn [app].
    pose proof (clean_not_newline c Hc) as Hnl.
    apply special_false in Hc as (Hd & _ & _ & HLF).
    rewrite (read_stream_char _ (Csv.Reader Csv.IN_FIELD (f ++ [c]) fs));
      [|done|by destruct cs, rest|].
    + rewrite IH by (rewrite length_app; simpl; lia). by rewrite <- app_assoc.
    + unfold Csv.parse_process_char. cbn [Csv.st]. rewrite Hnl.
      rewrite decide_False by done. apply parse_add_char_ok. lia.
Qed.

(** The inside of a quoted field: doubled quotes count once, line breaks are
    taken as they are and do not end the record. *)
Lemma stream_in_quoted (data f : Csv.text) (fs : list string) (rest : Csv.text) :
  rest ≠ [] →
  Z.of_nat (length f + length data) ≤ Csv.field_limit →
  read_stream (Csv.Reader Csv.IN_QUOTED_FIELD f fs) ((data ≫= Csv.copy_char) ++ rest)
  = read_stream (Csv.Reader Csv.IN_QUOTED_FIELD (f ++ data) fs) rest.
Proof.
  intros Hrest. revert f. induction data as [|c data IH]; intros f Hlen.
  - by rewrite app_nil_r.
  - simpl in Hlen. rewrite bind_cons, <- app_assoc.
    assert ((data ≫= Csv.copy_char) ++ rest ≠ []) as Hmore
      by (by destruct (data ≫= Csv.copy_char), rest).
    assert (read_stream (Csv.Reader Csv.IN_QUOTED_FIELD f fs)
              (Csv.copy_char c ++ (data ≫= Csv.copy_char) ++ rest)
            = read_stream (Csv.Reader Csv.IN_QUOTED_FIELD (f ++ [c]) fs)
                ((data ≫= Csv.copy_char) ++ rest)) as ->.
    { unfold Csv.copy_char at 1. destruct (decide (c = Csv.quotechar)) as [->|Hq].
      - cbn [app].
        rewrite (read_stream_char _ (Csv.Reader Csv.QUOTE_IN_QUOTED_FIELD f fs));
          [|done|done|done].
        rewrite (read_stream_char _ (Csv.Reader Csv.IN_QUOTED_FIELD (f ++ [Csv.quotechar]) fs));
          [done|done|done|].
        unfold Csv.parse_process_char. cbn [Csv.st].
        rewrite decide_True by done. by rewrite parse_add_char_ok by lia.
      - cbn [app].
        assert (Csv.parse_process_char (Csv.Reader Csv.IN_QUOTED_FIELD f fs) (Csv.Char c)
                = Csv.Ok (Csv.Reader Csv.IN_QUOTED_FIELD (f ++ [c]) fs)) as Hstep.
        { unfold Csv.parse_process_char. cbn [Csv.st].
          rewrite decide_False by done. apply parse_add_char_ok. lia. }
        destruct (decide (c = Csv.LF)) as [->|HLF].
        + by rewrite (read_stream_end_of_line _ _ _ _ Hstep eq_refl).
        + by rewrite (read_stream_char _ _ _ _ HLF Hmore Hstep). }
    rewrite IH by (rewrite length_app; simpl; lia). by rewrite <- app_assoc.
Qed.

Lemma existsb_special_false (cs : Csv.text) :
  existsb Csv.special cs = false → Forall (λ c, Csv.special c = false) cs.
Proof.
  induction cs as [|c cs IH]; simpl; [by constructor|].
  intros [Hc Hcs]%orb_false_iff. constructor; [done|by apply IH].
Qed.

Lemma stream_field (cell : string) (fs : list string) (rest : Csv.text) :
  Csv.short_cell cell → rest ≠ [] →
  ∃ s, field_read s
       ∧ read_stream (Csv.Reader Csv.START_FIELD [] fs) (encode_field cell ++ rest)
         = read_stream (Csv.Reader s (list_ascii_of_string cell) fs) rest.
Proof.
  unfold Csv.short_cell. rewrite <- length_list_ascii_of_string.
  intros Hshort Hrest. unfold encode_field.
  destruct (existsb Csv.special (list_ascii_of_string cell)) eqn:Hsp.
  - exists Csv.QUOTE_IN_QUOTED_FIELD. split; [by right; right|].
    rewrite <- !app_assoc. cbn [app].
    rewrite (read_stream_char _ (Csv.Reader Csv.IN_QUOTED_FIELD [] fs));
      [|done|by destruct (_ ≫= _)|done].
    rewrite stream_in_quoted by done. cbn [app].
    by rewrite (read_stream_char _
                  (Csv.Reader Csv.QUOTE_IN_QUOTED_FIELD (list_ascii_of_string cell) fs)).
  - apply existsb_special_false in Hsp. rewrite copy_clean by done.
    destruct (list_ascii_of_string cell) as [|c cs] eqn:Hcell.
    { exists Csv.START_FIELD. by split; [left|]. }
    exists Csv.IN_FIELD. split; [by right; left|].
    apply Forall_cons in Hsp as [Hc Hcs]. simpl in Hshort. cbn [app].
    pose proof (clean_not_newline c Hc) as Hnl.
    apply special_false in Hc as (Hd & Hq & _ & HLF).
    rewrite (read_stream_char _ (Csv.Reader Csv.IN_FIELD [c] fs));
      [|done|by destruct cs, rest|].
    + by rewrite stream_in_field by (try done; simpl; lia).
    + unfold Csv.parse_process_char, Csv.process_start_field. cbn [Csv.st].
      rewrite Hnl. by rewrite !decide_False by done.
Qed.

Lemma field_read_delimiter (s : Csv.state) (f : Csv.text) (fs : list string) :
  field_read s →
  Csv.parse_process_char (Csv.Reader s f fs) (Csv.Char Csv.delimiter)
  = Csv.Ok (Csv.Reader Csv.START_FIELD [] (fs ++ [string_of_list_ascii f])).
Proof. by intros [-> | [-> | ->]]. Qed.

Lemma field_read_CR (s : Csv.state) (f : Csv.text) (fs : list string) :
  field_read s →
  Csv.parse_process_char (Csv.Reader s f fs) (Csv.Char Csv.CR)
  = Csv.Ok (Csv.Reader Csv.EAT_CRNL [] (fs ++ [string_of_list_ascii f])).
Proof. by intros [-> | [-> | ->]]. Qed.

(** From the end of a field to the end of the record: the remaining fields,
    the line terminator, and the record is complete. *)
Lemma stream_rest_of_record (cells : list string) :
  Forall Csv.short_cell cells →
  ∀ (s : Csv.state) (b : string) (fs : list string) (tail : Csv.text),
    field_read s →
    read_stream (Csv.Reader s (list_ascii_of_string b) fs)
      (more_encoded cells ++ [Csv.CR; Csv.LF] ++ tail)
    = match read_stream Csv.parse_reset tail with
      | Csv.Ok rows => Csv.Ok ((fs ++ b :: cells) :: rows)
      | Csv.Err e => Csv.Err e
      end.
Proof.
  induction 1 as [|c cells Hc _ IH]; intros s b fs tail Hs.
  - cbn [more_encoded mbind list_bind app].
    erewrite read_stream_char; [|done|done|by apply field_read_CR].
    rewrite (read_stream_end_of_line _
               (Csv.Reader Csv.EAT_CRNL [] (fs ++ [string_of_list_ascii (list_ascii_of_string b)]))
               (Csv.Reader Csv.START_RECORD [] (fs ++ [string_of_list_ascii (list_ascii_of_string b)])))
      by done.
    cbn [Csv.st Csv.fields]. rewrite decide_True by done.
    by rewrite string_of_list_ascii_of_string.
  - unfold more_encoded. rewrite bind_cons. fold (more_encoded cells).
    rewrite <- !app_assoc. cbn [app].
    erewrite read_stream_char;
      [|done|by destruct (encode_field c), (more_encoded cells)
       |by apply field_read_delimiter].
    rewrite string_of_list_ascii_of_string.
    change (Csv.CR :: Csv.LF :: tail) with ([Csv.CR; Csv.LF] ++ tail).
    destruct (stream_field c (fs ++ [b])
                (more_encoded cells ++ [Csv.CR; Csv.LF] ++ tail))
      as (s' & Hs' & ->); [done|by destruct (more_encoded cells)|].
    rewrite (IH s' c (fs ++ [b]) tail Hs'). by rewrite <- app_assoc.
Qed.

(** ** The writer on arbitrary rows *)

Lemma join_append_encode (w : Csv.writer) (cell : string) :
  Csv.join_append w (Some cell) false
  = Csv.Writer
      (Csv.rec w ++ (if decide (0 < Csv.num_fields w)%nat then [Csv.delimiter] else [])
         ++ encode_field cell)
      (S (Csv.num_fields w)).
Proof. reflexivity. Qed.

Lemma join_more_encoded (cells : list string) (rec : Csv.text) (k : nat) :
  foldl (λ w field, Csv.join_append w (Some field) false) (Csv.Writer rec (S k)) cells
  = Csv.Writer (rec ++ more_encoded cells) (S k + length cells).
Proof.
  revert rec k. induction cells as [|c cells IH]; intros rec k.
  - simpl. by rewrite app_nil_r, Nat.add_0_r.
  - cbn [foldl]. rewrite join_append_encode. cbn [Csv.num_fields Csv.rec].
    rewrite IH. unfold more_encoded. rewrite bind_cons.
    rewrite decide_True by lia. f_equal.
    + by rewrite <- !app_assoc.
    + simpl. lia.
Qed.

(** The line written for any row. *)
Lemma writerow_encoded (row : Row) :
  Csv.writerow row
  = match row with
    | [] => [Csv.CR; Csv.LF]
    | cell :: cells =>
        if decide (encode_field cell ++ more_encoded cells = [])
        then [Csv.quotechar; Csv.quotechar; Csv.CR; Csv.LF]
        else encode_field cell ++ more_encoded cells ++ [Csv.CR; Csv.LF]
    end.
Proof.
  destruct row as [|cell cells]; [done|].
  unfold Csv.writerow. cbn [foldl].
  change (Csv.join_append Csv.join_reset (Some cell) false)
    with (Csv.Writer (encode_field cell) 1).
  rewrite join_more_encoded. cbn [Csv.num_fields Csv.rec].
  destruct (decide (encode_field cell ++ more_encoded cells = [])) as [Hnil|Hne].
  - rewrite Hnil. rewrite decide_True by (split; [lia|done]).
    apply app_eq_nil in Hnil as [_ Hnil]. by destruct cells.
  - rewrite decide_False by (intros [_ ?]; done).
    cbn [Csv.rec]. by rewrite <- app_assoc.
Qed.

Lemma encode_field_nil (cell : string) : encode_field cell = [] → cell = "".
Proof.
  unfold encode_field.
  destruct (existsb Csv.special (list_ascii_of_string cell)); [done|].
  destruct cell as [|c cell]; [done|]. simpl. unfold Csv.copy_char at 1.
  by destruct (decide (c = Csv.quotechar)).
Qed.

Lemma encode_field_first (cell : string) (c : ascii) (cs : Csv.text) :
  encode_field cell = c :: cs → Csv.is_newline c = false.
Proof.
  unfold encode_field.
  destruct (existsb Csv.special (list_ascii_of_string cell)) eqn:Hsp.
  - by intros [= <- _].
  - apply existsb_special_false in Hsp. rewrite copy_clean by done.
    intros Hcell. rewrite Hcell in Hsp. apply Forall_cons in Hsp as [Hc _].
    by apply clean_not_newline.
Qed.

Lemma read_stream_first_char (c : ascii) (t : Csv.text) :
  Csv.is_newline c = false →
  read_stream Csv.parse_reset (c :: t)
  = read_stream (Csv.Reader Csv.START_FIELD [] []) (c :: t).
Proof.
  intros Hc. cbn [read_stream].
  assert (Csv.parse_process_char Csv.parse_reset (Csv.Char c)
          = Csv.parse_process_char (Csv.Reader Csv.START_FIELD [] []) (Csv.Char c))
    as ->; [|done].
  unfold Csv.parse_process_char. simpl. by rewrite Hc.
Qed.

(** Reading the line written for a row gives the row back, and the reader
    goes on with what follows. *)
Lemma stream_row (row : Row) (tail : Csv.text) :
  Forall Csv.short_cell row →
  read_stream Csv.parse_reset (Csv.writerow row ++ tail)
  = match read_stream Csv.parse_reset tail with
    | Csv.Ok rows => Csv.Ok (row :: rows)
    | Csv.Err e => Csv.Err e
    end.
Proof.
  intros Hshort. rewrite writerow_encoded.
  destruct Hshort as [|cell cells Hc Hcs].
  { cbn [app]. erewrite read_stream_char; [|done|done|reflexivity].
    by erewrite read_stream_end_of_line by reflexivity. }
  destruct (decide _) as [Hnil|Hne].
  { apply app_eq_nil in Hnil as [Hcell Hcells].
    apply encode_field_nil in Hcell as ->. destruct cells; [|done].
    cbn [app]. erewrite read_stream_char; [|done|done|reflexivity].
    erewrite read_stream_char; [|done|done|reflexivity].
    erewrite read_stream_char; [|done|done|reflexivity].
    by erewrite read_stream_end_of_line by reflexivity. }
  assert (read_stream (Csv.Reader Csv.START_FIELD [] [])
            (encode_field cell ++ more_encoded cells ++ [Csv.CR; Csv.LF] ++ tail)
          = match read_stream Csv.parse_reset tail with
            | Csv.Ok rows => Csv.Ok ((cell :: cells) :: rows)
            | Csv.Err e => Csv.Err e
            end) as Hrun.
  { destruct (stream_field cell [] (more_encoded cells ++ [Csv.CR; Csv.LF] ++ tail))
      as (s & Hs & ->); [done|by destruct (more_encoded cells)|].
    by rewrite (stream_rest_of_record cells Hcs s cell [] tail Hs). }
  rewrite <- Hrun, <- !app_assoc.
  destruct (encode_field cell) as [|c cs] eqn:Hcell.
  - destruct cells as [|cell2 cells]; [done|].
    unfold more_encoded. rewrite bind_cons. cbn [app].
    by apply read_stream_first_char.
  - cbn [app]. apply read_stream_first_char.
    by apply (encode_field_first cell c cs).
Qed.

Lemma stream_rows (rows : Table) :
  Csv.short_table rows →
  read_stream Csv.parse_reset (concat (Csv.writerow <$> rows)) = Csv.Ok rows.
Proof.
  induction 1 as [|row rows Hrow _ IH]; [done|].
  rewrite fmap_cons. cbn [concat]. by rewrite stream_row, IH.
Qed.

(** X1. Whatever the cells hold (delimiters, quotes, line breaks included),
    a table none of whose cells is longer than the reader's field limit is
    read back from its written text as it was. *)
Theorem csv_round_trip_any_cells (rows : Table) :
  Csv.short_table rows →
  Csv.read_text (Csv.write_rows rows) = Csv.Ok rows.
Proof.
  intros Hshort. unfold Csv.read_text.
  rewrite read_records_lines, write_rows_written. by apply stream_rows.
Qed.

Lemma csv_round_trip_any_cells_witness :
  Csv.read_text (Csv.write_rows awkward_table) = Csv.Ok awkward_table.
Proof.
  apply csv_round_trip_any_cells.
  unfold Csv.short_table, Csv.short_cell, Csv.field_limit, awkward_table.
  repeat constructor; simpl; lia.
Defined.

(** ** More on the limiter and the widener *)

Lemma adjust_stop_range (len stop : Z) :
  0 ≤ len → 0 ≤ Py.adjust_stop len stop ≤ len.
Proof.
  intros Hlen. unfold Py.adjust_stop.
  repeat destruct (decide _); lia.
Qed.

(** X2. Whatever the count (negative, zero, beyond the end), the limiter
    returns a prefix of its input and keeps the header. *)
Theorem limit_rows_is_prefix (T : Table) (n : Z) :
  limit_rows T n `prefix_of` T
  ∧ header_of (limit_rows T n) = header_of T
  ∧ (length (limit_rows T n) ≤ length T)%nat.
Proof.
  destruct T as [|h d]; [by split; [exists []|]|].
  rewrite limit_rows_cons. unfold Py.slice_upto.
  split; [|split; [done|]].
  - apply prefix_cons, prefix_take.
  - simpl. rewrite length_take. lia.
Qed.

(** X3. Limiting twice with non-negative counts is limiting once with the
    smaller count. *)
Theorem limit_rows_twice (T : Table) (n m : Z) :
  0 ≤ n → 0 ≤ m →
  limit_rows (limit_rows T n) m = limit_rows T (Z.min n m).
Proof.
  intros Hn Hm. destruct T as [|h d]; [done|].
  rewrite !limit_rows_cons, !slice_upto_nonneg by lia.
  rewrite take_take. do 2 f_equal. lia.
Qed.

Lemma limit_rows_twice_witness :
  limit_rows (limit_rows [["H"]; ["a"]; ["b"]; ["c"]] 3) 1
  = limit_rows [["H"]; ["a"]; ["b"]; ["c"]] (Z.min 3 1).
Proof. apply limit_rows_twice; lia. Defined.

(** X4. A count that is at least the number of data rows leaves the table
    as it is. *)
Theorem limit_rows_all (T : Table) (n : Z) :
  Z.of_nat (length (data_of T)) ≤ n →
  limit_rows T n = T.
Proof.
  intros Hn. destruct T as [|h d]; [done|]. simpl in Hn.
  rewrite limit_rows_cons, slice_upto_nonneg by lia.
  by rewrite take_ge by lia.
Qed.

Lemma limit_rows_all_witness :
  limit_rows [["H"]; ["a"]; ["b"]] 2 = [["H"]; ["a"]; ["b"]].
Proof. apply limit_rows_all. simpl. lia. Defined.

Lemma widen_header_nothing (scores : Z) (h : Row) :
  scores ≤ 0 → widen_header scores h = h.
Proof.
  intros Hs. unfold widen_header. rewrite seqZ_nil by done. apply app_nil_r.
Qed.

Lemma widen_row_nothing (scores : Z) (r : Row) :
  scores ≤ 0 → widen_row scores r = r.
Proof.
  intros Hs. unfold widen_row. replace (Z.to_nat scores) with 0%nat by lia.
  apply app_nil_r.
Qed.

(** X5. With a score count of zero or less both loops run no round: the
    widener gives back a table equal to its input. *)
Theorem add_sentiment_columns_nothing (T : Table) (scores : Z) :
  scores ≤ 0 →
  add_sentiment_columns T scores = T.
Proof.
  intros Hs. destruct T as [|h d]; [done|].
  rewrite add_sentiment_columns_cons, widen_header_nothing by done. f_equal.
  induction d as [|r d IH]; [done|].
  by rewrite fmap_cons, widen_row_nothing, IH.
Qed.

Lemma add_sentiment_columns_nothing_witness :
  add_sentiment_columns [["H"; "K"]; ["a"; "b"]] (-2) = [["H"; "K"]; ["a"; "b"]].
Proof. apply add_sentiment_columns_nothing. lia. Defined.

Lemma length_widen_header (scores : Z) (h : Row) :
  length (widen_header scores h) = (length h + 2 * Z.to_nat scores)%nat.
Proof.
  unfold widen_header. by rewrite length_app, length_slot_names, length_seqZ.
Qed.

Lemma length_widen_row (scores : Z) (r : Row) :
  length (widen_row scores r) = (length r + 2 * Z.to_nat scores)%nat.
Proof. unfold widen_row. by rewrite length_app, length_replicate. Qed.

(** X6. The widener adds the same number of cells to the header and to every
    data row, for any score count: the widened table is rectangular exactly
    when the input is.  Ragged rows stay ragged, nothing is padded. *)
Theorem add_sentiment_columns_rectangular (T : Table) (scores : Z) :
  rectangular (add_sentiment_columns T scores) ↔ rectangular T.
Proof.
  destruct T as [|h d]; [done|].
  rewrite add_sentiment_columns_cons. unfold rectangular. split.
  - intros [w Hw]. exists (length h). apply Forall_cons in Hw as [Hh Hd].
    constructor; [done|]. rewrite length_widen_header in Hh.
    rewrite Forall_fmap in Hd. eapply Forall_impl; [exact Hd|].
    intros r Hr. simpl in Hr. rewrite length_widen_row in Hr. lia.
  - intros [w Hw]. exists (w + 2 * Z.to_nat scores)%nat.
    apply Forall_cons in Hw as [Hh Hd]. constructor.
    + rewrite length_widen_header. lia.
    + rewrite Forall_fmap. eapply Forall_impl; [exact Hd|].
      intros r Hr. unfold compose. rewrite length_widen_row.
      simpl in Hr. lia.
Qed.

(** ** More on prompting and on the runs of [main] *)

Section Runs.

Variable py_int : string → option Z.
Variable py_strip : string → string.
Variable decode_utf8_sig : list ascii → Csv.text.

Ltac io_next :=
  rewrite io_bind_run;
  cbn [Main.print Main.the_int Main.raise mret Main.IO_ret].

Lemma ask_scores_in_range (pending : list string) (w w1 : Main.World) (v : Z) :
  Main.ask_scores py_int py_strip pending w = (w1, inr v) → 1 ≤ v ≤ 5.
Proof.
  revert w. induction pending as [|line pending IH]; intros w; simpl; [done|].
  destruct (py_int (py_strip line)) as [v'|].
  - destruct (decide (1 ≤ v' ≤ 5)).
    + intros [= _ <-]. lia.
    + apply IH.
  - apply IH.
Qed.

(** X7. Without [--scores] the count returned by prompting lies in [1,5]. *)
Theorem prompt_if_needed_asks_scores (args args1 : Main.Namespace)
    (w w1 : Main.World) :
  Main.scores args = None →
  Main.prompt_if_needed py_int py_strip args w = (w1, inr args1) →
  ∃ v, Main.scores args1 = Some v ∧ 1 ≤ v ≤ 5.
Proof.
  intros Hnone. unfold Main.prompt_if_needed. rewrite io_bind_run.
  destruct (Main.rows args) as [n|].
  - unfold mret at 1, Main.IO_ret at 1. rewrite Hnone, io_bind_run.
    unfold Main.input_scores.
    destruct (Main.ask_scores _ _ _ _) as [w' [e|v]] eqn:Hask; [done|].
    apply ask_scores_in_range in Hask. intros [= _ <-]. by exists v.
  - rewrite io_bind_run. unfold Main.input_rows.
    destruct (Main.ask_rows _ _ _ _) as [w' [e|v0]]; [done|].
    unfold mret at 1, Main.IO_ret at 1. cbn [Main.scores].
    rewrite Hnone, io_bind_run. unfold Main.input_scores.
    destruct (Main.ask_scores _ _ _ _) as [w'' [e|v]] eqn:Hask; [done|].
    apply ask_scores_in_range in Hask. intros [= _ <-]. by exists v.
Qed.

Lemma ask_rows_skips (bad : list string) (good : string) (rest : list string)
    (v : Z) (w : Main.World) :
  Forall (rejected_rows py_int py_strip) bad →
  py_int (py_strip good) = Some v → 0 < v →
  ∃ w',
    Main.ask_rows py_int py_strip (bad ++ good :: rest) w = (w', inr v)
    ∧ Main.stdin w' = rest
    ∧ Main.stdout w'
      = Main.stdout w ++ rows_dialogue bad
          ++ ["How many headlines should be included? "]
    ∧ same_env w w'.
Proof.
  intros Hbad Hgood Hv. revert w.
  induction Hbad as [|line bad Hline _ IH]; intros w.
  - cbn [app Main.ask_rows]. rewrite Hgood, decide_False by lia.
    eexists. split; [reflexivity|]. by split_and!.
  - cbn [app Main.ask_rows]. unfold rejected_rows in Hline.
    match goal with
    | |- context [Main.ask_rows _ _ (bad ++ good :: rest) ?w0] =>
        destruct (IH w0) as (w' & Hrun & Hin & Hout & Henv)
    end.
    exists w'. destruct (py_int (py_strip line)) as [v'|].
    + rewrite decide_True by done. rewrite Hrun. split; [done|].
      split; [done|]. split; [|exact Henv].
      rewrite Hout. unfold rows_dialogue. rewrite bind_cons. simpl.
      by rewrite <- !app_assoc.
    + rewrite Hrun. split; [done|]. split; [done|]. split; [|exact Henv].
      rewrite Hout. unfold rows_dialogue. rewrite bind_cons. simpl.
      by rewrite <- !app_assoc.
Qed.

(** X8. Asked for the row count, the program complains once for every line
    that is not a positive integer, takes the first line that is one, and
    leaves the lines after it unread. *)
Theorem prompt_if_needed_first_valid_rows (args : Main.Namespace) (w : Main.World)
    (bad : list string) (good : string) (rest : list string) (v s : Z) :
  Main.rows args = None →
  Main.scores args = Some s →
  Main.stdin w = bad ++ good :: rest →
  Forall (rejected_rows py_int py_strip) bad →
  py_int (py_strip good) = Some v → 0 < v →
  ∃ w',
    Main.prompt_if_needed py_int py_strip args w
    = (w', inr (Main.Args (Some v) (Some s) (Main.finviz_url args) (Main.output args)))
    ∧ Main.stdin w' = rest
    ∧ Main.stdout w'
      = Main.stdout w ++ rows_dialogue bad
          ++ ["How many headlines should be included? "].
Proof.
  intros Hrows Hscores Hin Hbad Hgood Hv.
  destruct (ask_rows_skips bad good rest v w Hbad Hgood Hv)
    as (w' & Hrun & Hin' & Hout & _).
  exists w'. unfold Main.prompt_if_needed.
  rewrite io_bind_run, Hrows, io_bind_run. unfold Main.input_rows.
  rewrite Hin, Hrun. unfold mret at 1, Main.IO_ret at 1.
  cbn [Main.scores]. by rewrite Hscores.
Qed.

Lemma ask_rows_eof (pending : list string) (w : Main.World) :
  Forall (rejected_rows py_int py_strip) pending →
  ∃ w',
    Main.ask_rows py_int py_strip pending w = (w', inl Main.EOFError)
    ∧ Main.stdout w'
      = Main.stdout w ++ rows_dialogue pending
          ++ ["How many headlines should be included? "]
    ∧ same_env w w'.
Proof.
  intros Hbad. revert w. induction Hbad as [|line bad Hline _ IH]; intros w.
  - cbn [Main.ask_rows]. eexists. split; [reflexivity|]. by split.
  - cbn [Main.ask_rows]. unfold rejected_rows in Hline.
    match goal with
    | |- context [Main.ask_rows _ _ bad ?w0] =>
        destruct (IH w0) as (w' & Hrun & Hout & Henv)
    end.
    exists w'. destruct (py_int (py_strip line)) as [v'|].
    + rewrite decide_True by done. rewrite Hrun. split; [done|].
      split; [|exact Henv].
      rewrite Hout. unfold rows_dialogue. rewrite bind_cons. simpl.
      by rewrite <- !app_assoc.
    + rewrite Hrun. split; [done|]. split; [|exact Henv].
      rewrite Hout. unfold rows_dialogue. rewrite bind_cons. simpl.
      by rewrite <- !app_assoc.
Qed.

(** X9. When the row count has to be asked for and standard input runs out
    before a positive integer was entered, the run ends on [EOFError] with
    status 1: nothing is fetched, written or launched, and the output is the
    prompts and complaints only. *)
Theorem main_stdin_exhausted (args : Main.Namespace) (w : Main.World) :
  Main.rows args = None →
  Forall (rejected_rows py_int py_strip) (Main.stdin w) →
  ∃ w',
    Main.main py_int py_strip decode_utf8_sig args w = (w', inl Main.EOFError)
    ∧ Main.run py_int py_strip decode_utf8_sig args w = (w', 1)
    ∧ Main.files w' = Main.files w
    ∧ Main.launched w' = Main.launched w
    ∧ Main.stdout w'
      = Main.stdout w ++ rows_dialogue (Main.stdin w)
          ++ ["How many headlines should be included? "].
Proof.
  intros Hrows Hbad.
  destruct (ask_rows_eof (Main.stdin w) w Hbad) as (w' & Hrun & Hout & Henv).
  exists w'.
  assert (Main.main py_int py_strip decode_utf8_sig args w = (w', inl Main.EOFError))
    as Hmain.
  { unfold Main.main, Main.prompt_if_needed.
    rewrite !io_bind_run, Hrows, io_bind_run. unfold Main.input_rows.
    by rewrite Hrun. }
  unfold Main.run. rewrite Hmain. destruct Henv as (_ & _ & ? & ?).
  by split_and!.
Qed.

(** X10. A fetch that fails, for want of a response or on a field the
    parser refuses, ends the run with status 1 right after the download
    message: nothing is written, nothing launched. *)
Theorem main_fetch_fails (args args1 : Main.Namespace) (w w1 : Main.World) :
  Main.prompt_if_needed py_int py_strip args w = (w1, inr args1) →
  (Main.http w (Main.finviz_url args) = None
   ∨ ∃ body e, Main.http w (Main.finviz_url args) = Some body
               ∧ Csv.read_text (decode_utf8_sig body) = Csv.Err e) →
  ∃ w' exn,
    Main.main py_int py_strip decode_utf8_sig args w = (w', inl exn)
    ∧ (exn = Main.URLError ∨ ∃ e, exn = Main.CsvError e)
    ∧ Main.run py_int py_strip decode_utf8_sig args w = (w', 1)
    ∧ Main.files w' = Main.files w
    ∧ Main.launched w' = Main.launched w
    ∧ last (Main.stdout w') = Some "Downloading Finviz news CSV...".
Proof.
  intros Hp Hfail.
  destruct (prompt_if_needed_returns _ _ _ _ _ _ Hp)
    as ((Hhttp & _ & Hfiles & Hl) & Hurl & _ & [n Hn] & [s Hs] & _).
  assert (∃ exn,
            Main.fetch_finviz_csv decode_utf8_sig (Main.finviz_url args1)
              (Main.set_stdout (Main.stdout w1 ++ ["Downloading Finviz news CSV..."]) w1)
            = (Main.set_stdout (Main.stdout w1 ++ ["Downloading Finviz news CSV..."]) w1,
               inl exn)
            ∧ (exn = Main.URLError ∨ ∃ e, exn = Main.CsvError e)) as (exn & Hfetch & Hexn).
  { unfold Main.fetch_finviz_csv. cbn [Main.http Main.set_stdout].
    rewrite Hurl, Hhttp. destruct Hfail as [-> | (body & e & -> & ->)].
    - exists Main.URLError. by split; [|left].
    - exists (Main.CsvError e). split; [done|]. right. by exists e. }
  eexists _, exn.
  assert (Main.main py_int py_strip decode_utf8_sig args w
          = (Main.set_stdout (Main.stdout w1 ++ ["Downloading Finviz news CSV..."]) w1,
             inl exn)) as Hmain.
  { unfold Main.main. rewrite io_bind_run, Hp, Hn, Hs. do 4 io_next.
    by rewrite Hfetch. }
  split; [exact Hmain|]. split; [exact Hexn|]. unfold Main.run. rewrite Hmain.
  cbn [Main.stdout Main.set_stdout Main.files Main.launched].
  split_and!; [|done|done|by rewrite last_snoc].
  by destruct Hexn as [-> | [e ->]].
Qed.

(** X11. When the output directory cannot be made the run ends on [OSError]
    with status 1 after announcing the write: no file is written and the
    viewer is not launched. *)
Theorem main_cannot_write (args args1 : Main.Namespace) (w w1 : Main.World)
    (body : list ascii) (T : Table) :
  Main.prompt_if_needed py_int py_strip args w = (w1, inr args1) →
  Main.http w (Main.finviz_url args) = Some body →
  Csv.read_text (decode_utf8_sig body) = Csv.Ok T →
  T ≠ [] →
  Main.unwritable w (Main.output args) = true →
  ∃ w',
    Main.main py_int py_strip decode_utf8_sig args w = (w', inl Main.OSError)
    ∧ Main.run py_int py_strip decode_utf8_sig args w = (w', 1)
    ∧ Main.files w' = Main.files w
    ∧ Main.launched w' = Main.launched w
    ∧ last (Main.stdout w')
      = Some ("Writing CSV to " +:+ Main.output args +:+ " ...").
Proof.
  intros Hp Hb HT Hne Hw.
  destruct (prompt_if_needed_returns _ _ _ _ _ _ Hp)
    as ((Hhttp & Hunw & Hfiles & Hl) & Hurl & Hout & [n Hn] & [s Hs] & _).
  assert (∃ w',
            Main.main py_int py_strip decode_utf8_sig args w = (w', inl Main.OSError)
            ∧ Main.files w' = Main.files w
            ∧ Main.launched w' = Main.launched w
            ∧ last (Main.stdout w')
              = Some ("Writing CSV to " +:+ Main.output args +:+ " ..."))
    as (w' & Hmain & ? & ? & ?).
  { unfold Main.main. rewrite io_bind_run, Hp, Hn, Hs. do 4 io_next.
    rewrite (fetch_run _ _ _ body T); [|by rewrite Hurl; simpl; rewrite Hhttp|done].
    io_next. destruct (decide (T = [])) as [|_]; [done|].
    cbn [mret Main.IO_ret]. do 4 io_next.
    unfold Main.write_csv at 1. io_next.
    unfold Main.ensure_parent_dir at 1. cbn [Main.unwritable Main.set_stdout].
    rewrite Hunw, Hout, Hw. eexists. split; [reflexivity|].
    cbn [Main.stdout Main.set_stdout Main.files Main.launched].
    split_and!; [done|done|]. by rewrite last_snoc. }
  exists w'. unfold Main.run. rewrite Hmain. by split_and!.
Qed.

(** X12. [try_open_file] never raises and never touches standard output or
    the files; it launches at most one command, whose last argument is the
    path, and none when launching fails or the platform is none of the three
    it knows. *)
Theorem try_open_file_best_effort (path : string) (w : Main.World) :
  ∃ w',
    Main.try_open_file path w = (w', inr ())
    ∧ Main.files w' = Main.files w
    ∧ Main.stdout w' = Main.stdout w
    ∧ Main.stdin w' = Main.stdin w
    ∧ (Main.launched w' = Main.launched w
       ∨ ∃ prog, Main.launched w' = Main.launched w ++ [[prog; path]]
                 ∧ Main.spawn_fails w = false
                 ∧ (String.prefix "linux" (Main.platform w) = true
                    ∨ Main.platform w = "darwin" ∨ Main.os_name w = "nt")).
Proof.
  unfold Main.try_open_file.
  destruct (String.prefix "linux" (Main.platform w)) eqn:Hlinux;
    [|destruct (decide (Main.platform w = "darwin")) as [Hd|Hd];
      [|destruct (decide (Main.os_name w = "nt")) as [Hn|Hn]]];
    try (destruct (Main.spawn_fails w) eqn:Hspawn);
    eexists; (split; [reflexivity|]); simpl; split_and!; try done;
    try (by left); right; eexists; split_and!; try done; eauto.
Qed.

End Runs.

(** ** What the reader returns *)

Lemma length_string_of_list_ascii (l : Csv.text) :
  String.length (string_of_list_ascii l) = length l.
Proof. induction l as [|c l IH]; simpl; [done|]. by rewrite IH. Qed.

Lemma within_limit_reset : within_limit Csv.parse_reset.
Proof. split; [done|constructor]. Qed.

Lemma within_limit_set_state (s : Csv.state) (r : Csv.reader) :
  within_limit r → within_limit (Csv.set_state s r).
Proof. done. Qed.

Lemma within_limit_save (r : Csv.reader) :
  within_limit r → within_limit (Csv.parse_save_field r).
Proof.
  intros [Hf Hfs]. split; [done|]. simpl. apply Forall_app. split; [done|].
  constructor; [|constructor]. unfold Csv.short_cell.
  by rewrite length_string_of_list_ascii.
Qed.

Lemma within_limit_add (r r' : Csv.reader) (c : ascii) :
  within_limit r → Csv.parse_add_char r c = Csv.Ok r' → within_limit r'.
Proof.
  intros [Hf Hfs]. unfold Csv.parse_add_char.
  destruct (decide _) as [|Hroom]; [done|]. intros [= <-].
  split; [|done]. simpl. rewrite length_app. simpl. lia.
Qed.

Lemma within_limit_step (r r' : Csv.reader) (c : Csv.input) :
  within_limit r → Csv.parse_process_char r c = Csv.Ok r' → within_limit r'.
Proof.
  intros Hr. unfold Csv.parse_process_char, Csv.process_start_field, Csv.end_of_record.
  pose proof (within_limit_save r Hr) as Hsave.
  destruct (Csv.st r), c as [x|];
    repeat match goal with
      | |- context [Csv.is_newline ?x] => destruct (Csv.is_newline x)
      | |- context [decide ?P] => destruct (decide P)
      | |- context [Csv.parse_add_char ?r0 ?x] =>
          let H := fresh in
          destruct (Csv.parse_add_char r0 x) eqn:H;
          [apply within_limit_add in H; [|done]|]
      end;
    intros [= <-]; try done.
Qed.

Lemma within_limit_line (line : Csv.text) (r r' : Csv.reader) :
  within_limit r → Csv.process_line r line = Csv.Ok r' → within_limit r'.
Proof.
  revert r. induction line as [|c line IH]; intros r Hr; simpl.
  - by apply within_limit_step.
  - destruct (Csv.parse_process_char r (Csv.Char c)) as [r1|e] eqn:Hstep; [|done].
    apply IH. by apply (within_limit_step r r1 (Csv.Char c)).
Qed.

Lemma within_limit_records (ls : list Csv.text) (r : Csv.reader) (rows : Table) :
  within_limit r → Csv.read_records r ls = Csv.Ok rows → Csv.short_table rows.
Proof.
  revert r rows. induction ls as [|line ls IH]; intros r rows Hr; simpl.
  - destruct (decide _); intros [= <-]; [|constructor].
    constructor; [|constructor]. by apply within_limit_save.
  - destruct (Csv.process_line r line) as [r1|e] eqn:Hline; [|done].
    apply within_limit_line in Hline; [|done].
    destruct (decide (Csv.st r1 = Csv.START_RECORD)).
    + destruct (Csv.read_records Csv.parse_reset ls) as [rows'|e'] eqn:Hrest; [|done].
      intros [= <-]. constructor; [apply Hline|].
      by apply (IH Csv.parse_reset rows' within_limit_reset).
    + by apply IH.
Qed.

(** X13. Whatever the text, a table the parser returns has no cell longer
    than the field limit (131072 characters). *)
Theorem read_text_cells_within_limit (t : Csv.text) (rows : Table) :
  Csv.read_text t = Csv.Ok rows → Csv.short_table rows.
Proof.
  unfold Csv.read_text. intros Hread.
  by apply (within_limit_records (Csv.lines t) Csv.parse_reset rows within_limit_reset).
Qed.

Lemma read_text_cells_within_limit_witness :
  Csv.short_table [["a"; "b"]; ["c"; ""]].
Proof.
  apply (read_text_cells_within_limit
           (list_ascii_of_string "a,b" ++ [Csv.LF] ++ list_ascii_of_string "c,")).
  reflexivity.
Defined.

(** X14. What the parser returned can be written and parsed again, and comes
    back the same: no condition on the cells is needed. *)
Theorem parsed_table_round_trip (t : Csv.text) (rows : Table) :
  Csv.read_text t = Csv.Ok rows →
  Csv.read_text (Csv.write_rows rows) = Csv.Ok rows.
Proof.
  unfold Csv.read_text at 1. intros Hread.
  apply within_limit_records in Hread; [|apply within_limit_reset].
  unfold Csv.read_text. rewrite read_records_lines, write_rows_written.
  by apply stream_rows.
Qed.

Lemma parsed_table_round_trip_witness :
  Csv.read_text (Csv.write_rows [["a"; "b, c"]; ["d"]])
  = Csv.Ok [["a"; "b, c"]; ["d"]].
Proof.
  apply (parsed_table_round_trip
           (list_ascii_of_string "a," ++ [Csv.quotechar]
              ++ list_ascii_of_string "b, c" ++ [Csv.quotechar; Csv.LF]
              ++ list_ascii_of_string "d")).
  reflexivity.
Defined.

(** ** The output of a run, read back *)

Lemma short_slot_names (i : Z) :
  1 ≤ i ≤ 5 → Forall Csv.short_cell (slot_names i).
Proof.
  intros Hi.
  assert (i = 1 ∨ i = 2 ∨ i = 3 ∨ i = 4 ∨ i = 5) as Hcases by lia.
  unfold Csv.short_cell, Csv.field_limit.
  destruct Hcases as [-> | [-> | [-> | [-> | ->]]]];
    repeat constructor; simpl; lia.
Qed.

Lemma short_widen_header (scores : Z) (h : Row) :
  1 ≤ scores ≤ 5 → Forall Csv.short_cell h →
  Forall Csv.short_cell (widen_header scores h).
Proof.
  intros Hs Hh. unfold widen_header. apply Forall_app. split; [done|].
  apply Forall_bind, Forall_forall. intros i Hi.
  apply elem_of_seqZ in Hi. apply short_slot_names. lia.
Qed.

Lemma short_widen_row (scores : Z) (r : Row) :
  Forall Csv.short_cell r → Forall Csv.short_cell (widen_row scores r).
Proof.
  intros Hr. unfold widen_row. apply Forall_app. split; [done|].
  apply Forall_replicate. unfold Csv.short_cell, Csv.field_limit. simpl. lia.
Qed.

Lemma short_add_sentiment_columns (T : Table) (scores : Z) :
  1 ≤ scores ≤ 5 → Csv.short_table T →
  Csv.short_table (add_sentiment_columns T scores).
Proof.
  intros Hs HT. destruct T as [|h d]; [done|].
  rewrite add_sentiment_columns_cons. apply Forall_cons in HT as [Hh Hd].
  constructor; [by apply short_widen_header|].
  rewrite Forall_fmap. eapply Forall_impl; [exact Hd|].
  intros r Hr. by apply short_widen_row.
Qed.

Lemma short_limit_rows (T : Table) (n : Z) :
  Csv.short_table T → Csv.short_table (limit_rows T n).
Proof.
  intros HT. destruct T as [|h d]; [done|].
  rewrite limit_rows_cons. apply Forall_cons in HT as [Hh Hd].
  constructor; [done|]. by apply Forall_take.
Qed.

Section Pipeline.

Variable py_int : string → option Z.
Variable py_strip : string → string.
Variable decode_utf8_sig : list ascii → Csv.text.

(** X15. After a run that completes with a score count in [1,5], the output
    file, parsed with the parser of the fetcher, is the fetched table limited
    and widened. *)
Theorem main_output_reads_back (args args1 : Main.Namespace) (w w1 : Main.World)
    (body : list ascii) (T : Table) (n s : Z) :
  Main.prompt_if_needed py_int py_strip args w = (w1, inr args1) →
  Main.rows args1 = Some n →
  Main.scores args1 = Some s →
  1 ≤ s ≤ 5 →
  Main.http w (Main.finviz_url args) = Some body →
  Csv.read_text (decode_utf8_sig body) = Csv.Ok T →
  T ≠ [] →
  Main.unwritable w (Main.output args) = false →
  ∃ w' written,
    Main.run py_int py_strip decode_utf8_sig args w = (w', 0)
    ∧ Main.files w' !! Main.output args = Some written
    ∧ Csv.read_text written
      = Csv.Ok (add_sentiment_columns (limit_rows T n) s).
Proof.
  intros Hp Hn Hs Hrange Hb HT Hne Hw.
  destruct (main_completes py_int py_strip decode_utf8_sig
              _ _ _ _ _ _ n s Hp Hn Hs Hb HT Hne Hw) as (w' & Hrun & Hf & _).
  exists w', (Csv.write_rows (add_sentiment_columns (limit_rows T n) s)).
  unfold Main.run. rewrite Hrun, Hf, lookup_insert_eq.
  split_and!; [done|done|].
  unfold Csv.read_text. rewrite read_records_lines, write_rows_written.
  apply stream_rows, short_add_sentiment_columns; [done|].
  apply short_limit_rows. unfold Csv.read_text in HT.
  by apply (within_limit_records _ _ _ within_limit_reset HT).
Qed.

(** X16. A [--scores] value of zero or less is not validated either: the run
    completes and the output file is the limited table with no column added.
    *)
Theorem main_scores_flag_not_validated (args : Main.Namespace) (w : Main.World)
    (body : list ascii) (T : Table) (n s : Z) :
  Main.rows args = Some n →
  Main.scores args = Some s →
  s ≤ 0 →
  Main.http w (Main.finviz_url args) = Some body →
  Csv.read_text (decode_utf8_sig body) = Csv.Ok T →
  T ≠ [] →
  Main.unwritable w (Main.output args) = false →
  ∃ w',
    Main.run py_int py_strip decode_utf8_sig args w = (w', 0)
    ∧ Main.files w' !! Main.output args
      = Some (Csv.write_rows (limit_rows T n)).
Proof.
  intros Hn Hs Hle Hb HT Hne Hw.
  pose proof (prompt_if_needed_flags py_int py_strip args w n s Hn Hs) as Hp.
  destruct (main_completes py_int py_strip decode_utf8_sig
              _ _ _ _ _ _ n s Hp Hn Hs Hb HT Hne Hw) as (w' & Hrun & Hf & _).
  exists w'. unfold Main.run. rewrite Hrun, Hf, lookup_insert_eq.
  split; [done|]. do 2 f_equal.
  destruct (limit_rows T n) as [|h d]; [done|].
  rewrite add_sentiment_columns_cons, widen_header_nothing by done. f_equal.
  rewrite <- (list_fmap_id d) at 2. apply list_fmap_ext.
  intros _ r _. by apply widen_row_nothing.
Qed.

End Pipeline.

(** ** The runs above, on sample worlds *)

Lemma prompt_if_needed_asks_scores_witness :
  ∃ v, Main.scores (sample_flags (Some 2) (Some 3)) = Some v ∧ 1 ≤ v ≤ 5.
Proof.
  apply (prompt_if_needed_asks_scores sample_int id
           (sample_flags (Some 2) None) (sample_flags (Some 2) (Some 3))
           (make_world ["x"; "0"; "3"] None false)
           (fst (Main.prompt_if_needed sample_int id (sample_flags (Some 2) None)
                   (make_world ["x"; "0"; "3"] None false))));
    reflexivity.
Defined.

Lemma prompt_if_needed_first_valid_rows_witness :
  ∃ w',
    Main.prompt_if_needed sample_int id (sample_flags None (Some 1))
      (make_world ["x"; "0"; "3"; "later"] None false)
    = (w', inr (sample_flags (Some 3) (Some 1)))
    ∧ Main.stdin w' = ["later"]
    ∧ Main.stdout w'
      = [] ++ rows_dialogue ["x"; "0"]
          ++ ["How many headlines should be included? "].
Proof.
  apply (prompt_if_needed_first_valid_rows sample_int id
           (sample_flags None (Some 1))
           (make_world ["x"; "0"; "3"; "later"] None false)
           ["x"; "0"] "3" ["later"] 3 1);
    try reflexivity.
  unfold rejected_rows. repeat constructor. simpl. lia.
Defined.

Lemma main_stdin_exhausted_witness :
  ∃ w',
    Main.main sample_int id id (sample_flags None None)
      (make_world ["x"; "0"] None false) = (w', inl Main.EOFError)
    ∧ Main.run sample_int id id (sample_flags None None)
        (make_world ["x"; "0"] None false) = (w', 1)
    ∧ Main.files w' = ∅
    ∧ Main.launched w' = []
    ∧ Main.stdout w'
      = [] ++ rows_dialogue ["x"; "0"]
          ++ ["How many headlines should be included? "].
Proof.
  apply (main_stdin_exhausted sample_int id id (sample_flags None None)
           (make_world ["x"; "0"] None false)); [reflexivity|].
  unfold rejected_rows. repeat constructor. simpl. lia.
Defined.

Lemma main_fetch_fails_witness :
  ∃ w' exn,
    Main.main sample_int id id (sample_flags (Some 3) (Some 1))
      (make_world [] None false) = (w', inl exn)
    ∧ (exn = Main.URLError ∨ ∃ e, exn = Main.CsvError e)
    ∧ Main.run sample_int id id (sample_flags (Some 3) (Some 1))
        (make_world [] None false) = (w', 1)
    ∧ Main.files w' = ∅
    ∧ Main.launched w' = []
    ∧ last (Main.stdout w') = Some "Downloading Finviz news CSV...".
Proof.
  apply (main_fetch_fails sample_int id id
           (sample_flags (Some 3) (Some 1)) (sample_flags (Some 3) (Some 1))
           (make_world [] None false) (make_world [] None false));
    [reflexivity|by left].
Defined.

Lemma main_cannot_write_witness :
  ∃ w',
    Main.main sample_int id id (sample_flags (Some 3) (Some 1))
      (make_world [] (Some (list_ascii_of_string "h,k")) true)
    = (w', inl Main.OSError)
    ∧ Main.run sample_int id id (sample_flags (Some 3) (Some 1))
        (make_world [] (Some (list_ascii_of_string "h,k")) true) = (w', 1)
    ∧ Main.files w' = ∅
    ∧ Main.launched w' = []
    ∧ last (Main.stdout w') = Some "Writing CSV to out.csv ...".
Proof.
  apply (main_cannot_write sample_int id id
           (sample_flags (Some 3) (Some 1)) (sample_flags (Some 3) (Some 1))
           (make_world [] (Some (list_ascii_of_string "h,k")) true)
           (make_world [] (Some (list_ascii_of_string "h,k")) true)
           (list_ascii_of_string "h,k") [["h"; "k"]]);
    try reflexivity; done.
Defined.

Lemma main_output_reads_back_witness :
  ∃ w' written,
    Main.run sample_int id id (sample_flags (Some 3) (Some 1))
      (make_world [] (Some (list_ascii_of_string "h,k")) false) = (w', 0)
    ∧ Main.files w' !! "out.csv" = Some written
    ∧ Csv.read_text written
      = Csv.Ok (add_sentiment_columns (limit_rows [["h"; "k"]] 3) 1).
Proof.
  apply (main_output_reads_back sample_int id id
           (sample_flags (Some 3) (Some 1)) (sample_flags (Some 3) (Some 1))
           (make_world [] (Some (list_ascii_of_string "h,k")) false)
           (make_world [] (Some (list_ascii_of_string "h,k")) false)
           (list_ascii_of_string "h,k") [["h"; "k"]] 3 1);
    try reflexivity; try lia; done.
Defined.

Lemma main_scores_flag_not_validated_witness :
  ∃ w',
    Main.run sample_int id id (sample_flags (Some 3) (Some 0))
      (make_world [] (Some (list_ascii_of_string "h,k")) false) = (w', 0)
    ∧ Main.files w' !! "out.csv"
      = Some (Csv.write_rows (limit_rows [["h"; "k"]] 3)).
Proof.
  apply (main_scores_flag_not_validated sample_int id id
           (sample_flags (Some 3) (Some 0))
           (make_world [] (Some (list_ascii_of_string "h,k")) false)
           (list_ascii_of_string "h,k") [["h"; "k"]] 3 0);
    try reflexivity; try lia; done.
Defined.

(** X17. Once prompting has returned, prompting again asks nothing and
    changes nothing. *)
Theorem prompt_if_needed_settles (py_int : string → option Z)
    (py_strip : string → string) (args args1 : Main.Namespace)
    (w w1 : Main.World) :
  Main.prompt_if_needed py_int py_strip args w = (w1, inr args1) →
  ∀ w2, Main.prompt_if_needed py_int py_strip args1 w2 = (w2, inr args1).
Proof.
  intros Hp w2.
  destruct (prompt_if_needed_returns _ _ _ _ _ _ Hp)
    as (_ & _ & _ & [n Hn] & [s Hs] & _).
  by apply (prompt_if_needed_flags py_int py_strip args1 w2 n s).
Qed.

Lemma prompt_if_needed_settles_witness :
  Main.prompt_if_needed sample_int id (sample_flags (Some 3) (Some 3))
    (make_world ["x"] None false)
  = (make_world ["x"] None false, inr (sample_flags (Some 3) (Some 3))).
Proof.
  apply (prompt_if_needed_settles sample_int id
           (sample_flags None None) (sample_flags (Some 3) (Some 3))
           (make_world ["3"; "3"] None false)
           (fst (Main.prompt_if_needed sample_int id (sample_flags None None)
                   (make_world ["3"; "3"] None false)))).
  reflexivity.
Defined.

(** ** Sharing between the limiter's result and its input *)

(** X18. On a non-empty table the limiter returns a new list object whose
    elements are the very row objects of its input, header first: rows are
    shared, not copied. *)
Theorem limit_rows_shares_rows (σ : Store.store) (t header : Store.loc)
    (rest : list Store.loc) (n : Z) :
  σ !! t = Some (Store.RowList (header :: rest)) →
  ∃ t' σ',
    Store.limit_rows t n σ = Some (t', σ')
    ∧ σ !! t' = None
    ∧ σ' !! t' = Some (Store.RowList (header :: Py.slice_upto rest n))
    ∧ σ ⊆ σ'.
Proof.
  intros Ht. unfold Store.limit_rows. rewrite bind_run.
  unfold Store.get_rows at 1. rewrite Ht. rewrite !bind_run.
  destruct (new_fresh (Store.RowList rest) σ) as (l1 & -> & Hl1).
  set (σ1 := <[l1 := Store.RowList rest]> σ).
  rewrite !bind_run. unfold Store.get_rows at 1. unfold σ1 at 1.
  rewrite lookup_insert_eq. rewrite !bind_run.
  destruct (new_fresh (Store.RowList (Py.slice_upto rest n)) σ1) as (l2 & -> & Hl2).
  set (σ2 := <[l2 := _]> σ1). rewrite !bind_run.
  destruct (new_fresh (Store.RowList [header]) σ2) as (l3 & -> & Hl3).
  set (σ3 := <[l3 := _]> σ2).
  assert (l2 ≠ l3) as Hne.
  { intros <-. unfold σ2 in Hl3. by rewrite lookup_insert_eq in Hl3. }
  rewrite !bind_run. unfold Store.get_rows at 1. unfold σ3 at 1.
  rewrite lookup_insert_eq. rewrite !bind_run. unfold Store.get_rows at 1.
  unfold σ3 at 1. rewrite lookup_insert_ne by done.
  unfold σ2 at 1. rewrite lookup_insert_eq.
  destruct (new_fresh (Store.RowList ([header] ++ Py.slice_upto rest n)) σ3)
    as (l4 & -> & Hl4).
  assert (σ ⊆ σ3) as Hsub3.
  { unfold σ3, σ2, σ1. by do 3 (etrans; [|by apply insert_subseteq]). }
  exists l4, (<[l4 := Store.RowList ([header] ++ Py.slice_upto rest n)]> σ3).
  split; [done|]. split_and!.
  - destruct (σ !! l4) as [o|] eqn:Hl; [|done].
    by rewrite (lookup_weaken _ _ _ _ Hl Hsub3) in Hl4.
  - by rewrite lookup_insert_eq.
  - etrans; [exact Hsub3|]. by apply insert_subseteq.
Qed.

Lemma limit_rows_shares_rows_witness :
  ∃ t' σ',
    Store.limit_rows 3%positive 1 sample_store = Some (t', σ')
    ∧ sample_store !! t' = None
    ∧ σ' !! t' = Some (Store.RowList [1%positive; 2%positive])
    ∧ sample_store ⊆ σ'.
Proof.
  apply (limit_rows_shares_rows sample_store 3%positive 1%positive [2%positive] 1).
  reflexivity.
Defined.

(** ** Line ends the reader takes, and one it refuses *)

Lemma writerow_row_text (row : Row) :
  Csv.writerow row = row_text row ++ [Csv.CR; Csv.LF].
Proof.
  rewrite writerow_encoded. destruct row as [|cell cells]; [done|].
  unfold row_text. destruct (decide _); [done|]. by rewrite <- app_assoc.
Qed.

Lemma stream_more_fields (cells : list string) :
  Forall Csv.short_cell cells →
  ∀ (s : Csv.state) (b : string) (fs : list string) (tail : Csv.text),
    field_read s → tail ≠ [] →
    ∃ r, row_read r (fs ++ b :: cells)
         ∧ read_stream (Csv.Reader s (list_ascii_of_string b) fs)
             (more_encoded cells ++ tail)
           = read_stream r tail.
Proof.
  induction 1 as [|c cells Hc _ IH]; intros s b fs tail Hs Htail.
  - eexists. split; [|reflexivity]. right. by exists s, b, fs.
  - unfold more_encoded. rewrite bind_cons. fold (more_encoded cells).
    rewrite <- !app_assoc. cbn [app].
    erewrite read_stream_char;
      [|done|by destruct (encode_field c), (more_encoded cells), tail
       |by apply field_read_delimiter].
    rewrite string_of_list_ascii_of_string.
    destruct (stream_field c (fs ++ [b]) (more_encoded cells ++ tail))
      as (s' & Hs' & ->); [done|by destruct (more_encoded cells), tail|].
    destruct (IH s' c (fs ++ [b]) tail Hs' Htail) as (r & Hr & ->).
    exists r. split; [|done]. by rewrite <- app_assoc in Hr.
Qed.

Lemma stream_row_text (row : Row) (tail : Csv.text) :
  Forall Csv.short_cell row → tail ≠ [] →
  ∃ r, row_read r row
       ∧ read_stream Csv.parse_reset (row_text row ++ tail) = read_stream r tail.
Proof.
  intros Hshort Htail. destruct Hshort as [|cell cells Hc Hcs].
  { exists Csv.parse_reset. by split; [left|]. }
  unfold row_text. destruct (decide _) as [Hnil|Hne].
  { apply app_eq_nil in Hnil as [Hcell Hcells].
    apply encode_field_nil in Hcell as ->. destruct cells; [|done].
    exists (Csv.Reader Csv.QUOTE_IN_QUOTED_FIELD [] []). split.
    - right. exists Csv.QUOTE_IN_QUOTED_FIELD, "", [].
      by split; [right; right|].
    - cbn [app]. erewrite read_stream_char; [|done|done|reflexivity].
      by erewrite read_stream_char; [|done|done|reflexivity]. }
  assert (∃ r, row_read r (cell :: cells)
               ∧ read_stream (Csv.Reader Csv.START_FIELD [] [])
                   (encode_field cell ++ more_encoded cells ++ tail)
                 = read_stream r tail) as (r & Hr & Hrun).
  { destruct (stream_field cell [] (more_encoded cells ++ tail))
      as (s & Hs & ->); [done|by destruct (more_encoded cells), tail|].
    by apply (stream_more_fields cells Hcs s cell [] tail). }
  exists r. split; [done|]. rewrite <- Hrun, <- app_assoc.
  destruct (encode_field cell) as [|c cs] eqn:Hcell.
  - destruct cells as [|cell2 cells]; [done|].
    unfold more_encoded. rewrite bind_cons. cbn [app].
    by apply read_stream_first_char.
  - cbn [app]. apply read_stream_first_char.
    by apply (encode_field_first cell c cs).
Qed.

Lemma row_read_newline (r : Csv.reader) (row : Row) (c : ascii) :
  row_read r row → c = Csv.LF ∨ c = Csv.CR →
  Csv.parse_process_char r (Csv.Char c)
  = Csv.Ok (Csv.Reader Csv.EAT_CRNL [] row).
Proof.
  intros [[-> ->] | (s & b & fs & Hs & -> & ->)] Hc.
  - by destruct Hc as [-> | ->].
  - destruct Hs as [-> | [-> | ->]], Hc as [-> | ->];
      unfold Csv.parse_process_char, Csv.process_start_field, Csv.end_of_record,
        Csv.parse_save_field, Csv.set_state; simpl;
      by rewrite string_of_list_ascii_of_string.
Qed.

Lemma stream_line_end (r : Csv.reader) (row : Row) (e tail : Csv.text) :
  row_read r row → line_end e →
  read_stream r (e ++ tail)
  = match read_stream Csv.parse_reset tail with
    | Csv.Ok rows => Csv.Ok (row :: rows)
    | Csv.Err e => Csv.Err e
    end.
Proof.
  intros Hr [-> | ->]; cbn [app].
  - by erewrite read_stream_end_of_line;
      [|by apply (row_read_newline r row); [|left]|reflexivity].
  - erewrite read_stream_char;
      [|done|done|by apply (row_read_newline r row); [|right]].
    by erewrite read_stream_end_of_line by reflexivity.
Qed.

(** X19. The parser takes LF as well as CR LF for the end of a record, row
    by row: rows in the writer's field format, each ended either way, are
    parsed into those rows. *)
Theorem read_text_line_ends (lines : list (Row * Csv.text)) :
  Forall (λ line, Forall Csv.short_cell line.1 ∧ line_end line.2) lines →
  Csv.read_text (rows_text lines) = Csv.Ok (fst <$> lines).
Proof.
  intros Hlines. unfold Csv.read_text, rows_text. rewrite read_records_lines.
  induction Hlines as [|[row e] lines [Hrow He] _ IH]; [done|].
  rewrite !fmap_cons. cbn [concat fst snd] in *. rewrite <- app_assoc.
  destruct (stream_row_text row (e ++ concat ((λ line, row_text line.1 ++ line.2) <$> lines)))
    as (r & Hr & ->); [done|by destruct He as [-> | ->]|].
  by rewrite (stream_line_end r row e _ Hr He), IH.
Qed.

Lemma read_text_line_ends_witness :
  Csv.read_text
    (rows_text [(["a"; "b, c"], [Csv.LF]); ([], [Csv.CR; Csv.LF]);
                (["d"; ""], [Csv.LF])])
  = Csv.Ok [["a"; "b, c"]; []; ["d"; ""]].
Proof.
  apply (read_text_line_ends
           [(["a"; "b, c"], [Csv.LF]); ([], [Csv.CR; Csv.LF]);
            (["d"; ""], [Csv.LF])]).
  unfold Csv.short_cell, Csv.field_limit.
  repeat (apply Forall_cons; split); try apply Forall_nil;
    try (split; [|first [by left | by right]]);
    repeat (apply Forall_cons; split); try apply Forall_nil; simpl; lia.
Defined.

(** X20. A record ended by CR alone and followed by anything but a line
    break is refused: the parser raises, whatever comes after. *)
Theorem read_text_bare_CR (row : Row) (c : ascii) (rest : Csv.text) :
  Forall Csv.short_cell row →
  Csv.is_newline c = false →
  Csv.read_text (row_text row ++ Csv.CR :: c :: rest)
  = Csv.Err Csv.NewlineInUnquotedField.
Proof.
  intros Hrow Hc. unfold Csv.read_text. rewrite read_records_lines.
  destruct (stream_row_text row (Csv.CR :: c :: rest)) as (r & Hr & ->);
    [done|done|].
  erewrite read_stream_char;
    [|done|done|by apply (row_read_newline r row); [|right]].
  cbn [read_stream]. unfold Csv.parse_process_char. cbn [Csv.st].
  by rewrite Hc.
Qed.

Lemma read_text_bare_CR_witness :
  Csv.read_text (row_text ["a"; "b"] ++ Csv.CR :: "c"%char :: list_ascii_of_string ",d")
  = Csv.Err Csv.NewlineInUnquotedField.
Proof.
  apply (read_text_bare_CR ["a"; "b"] "c"%char (list_ascii_of_string ",d"));
    [|reflexivity].
  unfold Csv.short_cell, Csv.field_limit. repeat constructor; simpl; lia.
Defined.
